(** * X402 pipeline: fetch, cache, access, export and scheduling

    A shallow embedding of [src/x402_pipeline.py] and [src/scheduler.py].

    - The SQLite table [query_results] is a list of rows in rowid order;
      [INSERT] appends at the end and nothing else writes to it.
    - Python exceptions and the mutable world (database, remote service,
      clock, sleeping, standard output) are threaded through a small
      state-and-exception monad.
    - Row records (Python dicts decoded from JSON) are finite maps from
      column names to values.
    - The libraries the code calls ([json], [dune_client], [datetime]) are
      fields of an environment record.
    - SQLite itself is taken to work: connecting, inserting and selecting
      do not raise.  The only exceptions are those of the remote client, the
      missing export libraries and the missing API key.
    - Datetimes are integers (microseconds); [timedelta] arithmetic stays
      inside the range of [datetime]. *)

From Stdlib Require Import ZArith QArith String List Lia Lqa.
From Stdlib Require Import OrderedTypeEx.
From stdpp Require Import base option list gmap strings.

Local Open Scope Z_scope.
Local Open Scope string_scope.
Local Open Scope list_scope.

(** ** Data model *)

(** A JSON value as it appears in a row returned by the remote service. *)
Inductive value : Type :=
  | VNull
  | VBool (b : bool)
  | VInt (z : Z)
  | VStr (s : string).

(** A row record: a Python [dict] from column name to value. *)
Abbreviation row := (gmap string value).

(** [QueryResult]: the dataclass of the source, which is also the shape of a
    row of the table [query_results] ([id] is the AUTOINCREMENT key, [data]
    the JSON text, [timestamp] the ISO-8601 text). *)
Record QueryResult : Type := mkQueryResult {
  id : Z;
  logical_name : string;
  query_id : Z;
  data : string;
  timestamp : string;
  row_count : Z
}.

(** [QUERY_IDS]: the module-level dict, in its insertion order. *)
Definition QUERY_IDS : list (string * Z) :=
  [ ("num transactions", 6084845);
    ("num transactions percent", 6084845);
    ("x402 volume evm", 6094619);
    ("volume by token evm", 6094619);
    ("facilitators by chain", 6084891);
    ("facilitators by chain percent", 6084891);
    ("facilitators solana", 6084802);
    ("x402 volume solana", 6094785);
    ("volume by token solana", 6094785) ].

(** [catalog !!! name], i.e. [QUERY_IDS[name]] guarded by [name in QUERY_IDS]. *)
Fixpoint catalog_get (catalog : list (string * Z)) (name : string) : option Z :=
  match catalog with
  | [] => None
  | (k, v) :: rest => if String.eqb k name then Some v else catalog_get rest name
  end.

(** ** The latest-result query

    [SELECT ... FROM query_results WHERE logical_name = ?
     ORDER BY timestamp DESC LIMIT 1]

    [timestamp] is a TEXT column, so SQLite compares it bytewise, which is
    [String.compare].  The rows are scanned in rowid order and SQLite keeps
    rows with equal sort keys in scan order (the ordering index of a query
    with LIMIT is keyed by the sort key followed by a sequence number), so
    the ordering is a stable sort. *)

Definition where_logical_name (name : string) (tbl : list QueryResult) : list QueryResult :=
  filter (λ r, logical_name r = name) tbl.

Fixpoint insert_desc (r : QueryResult) (sorted : list QueryResult) : list QueryResult :=
  match sorted with
  | [] => [r]
  | y :: rest =>
      if String.leb (timestamp y) (timestamp r)
      then r :: y :: rest
      else y :: insert_desc r rest
  end.

Definition order_by_timestamp_desc (rows : list QueryResult) : list QueryResult :=
  foldr insert_desc [] rows.

Definition select_latest (name : string) (tbl : list QueryResult) : option QueryResult :=
  head (order_by_timestamp_desc (where_logical_name name tbl)).

(** What one more scanned row does to the first row of the ordering. *)
Definition pick_desc (x : QueryResult) (best : option QueryResult) : QueryResult :=
  match best with
  | None => x
  | Some y => if String.leb (timestamp y) (timestamp x) then x else y
  end.

(** ** The world the pipeline runs in *)

(** Exceptions ([Exception] subclasses) the modelled code raises or sees. *)
Inductive exn : Type :=
  | RemoteError (reason : string)
  | MaxRetriesExceeded
  | ImportError
  | ValueError.

(** What [client.run_query] / [client.get_latest_result] hand back:
    a falsy response, a response whose [result] is missing or falsy, or a
    result with its [rows] ([None] when [rows] is [None]). *)
Inductive response : Type :=
  | NoResponse
  | NoResult
  | Rows (rows : option (list row)).

(** One entry of [export_summary["queries_exported"]]. *)
Record export_record : Type := mkExportRecord {
  exp_logical_name : string;
  exp_query_id : Z;
  exp_row_count : Z;
  exp_last_fetch : string
}.

(** The dict [export_summary]. *)
Record export_summary : Type := mkExportSummary {
  summary_timestamp : string;
  queries_exported : list export_record;
  total_rows : Z;
  files_created : list string
}.

(** A file written by the exporter.  The schema descriptor keeps its
    [total_rows] and [queries]; its column list comes from pandas' type
    inference and is left out. *)
Inductive artifact : Type :=
  | Parquet (rows : list row)
  | Csv (rows : list row)
  | Schema (export_timestamp : string) (schema_total_rows : Z)
           (queries : list export_record).

(** Lines written to standard output. *)
Inductive message : Type :=
  | MsgUnknownQuery (name : string)
  | MsgAvailableQueries (names : list string)
  | MsgFetching (name : string) (qid : Z)
  | MsgAttemptFailed (attempt : Z) (e : exn)
  | MsgRetryingIn (delay : Q)
  | MsgNoResults (qid : Z)
  | MsgFetched (rows : Z)
  | MsgFetchError (e : exn)
  | MsgNoData (name : string)
  | MsgParseError (name : string)
  | MsgShowing (name : string) (total shown : Z) (updated : string)
  | MsgExporting (dir : string)
  | WarnSkipNoData (name : string)
  | WarnSkipInvalidJSON (name : string)
  | WarnSkipEmpty (name : string)
  | MsgExported (name : string) (rows : Z)
  | WarnNothingToExport
  | MsgFileWritten (path : string)
  | MsgExportSummary (queries : Z) (rows : Z) (nfiles : Z)
  | MsgFetchAllStart (n : Z)
  | MsgFetchAllDone (ok n : Z).

(** The libraries and module globals the code depends on.  The n-th remote
    call and the n-th reading of [datetime.now()] are functions of n, so
    that a call may fail once and succeed the next time. *)
Record env : Type := mkEnv {
  catalog : list (string * Z);
  run_query : nat -> Z -> string -> exn + response;
  get_latest_result : nat -> Z -> string -> exn + response;
  datetime_now : nat -> Z;
  isoformat : Z -> string;
  strftime : Z -> string;
  (* [json.dumps] of rows that came from the service's JSON response *)
  json_dumps : list row -> string;
  (* [json.loads] of a stored payload: the row sequence, or [None] for
     [JSONDecodeError] *)
  json_loads : string -> option (list row);
  HAS_PANDAS : bool;
  DUNE_API_KEY : option string;
  dbt_invoke : option (exn + bool)
}.

(** What the process does to the outside, in order: a call to the remote
    service, or [time.sleep(d)]. *)
Inductive event : Type :=
  | EvCall
  | EvSleep (d : Q).

(** Mutable state: the table, the calls and sleeps made so far, how many
    times the clock was read, the output and the files written. *)
Record world : Type := mkWorld {
  db : list QueryResult;
  trace : list event;
  ticks : nat;
  stdout : list message;
  files : list (string * artifact)
}.

Definition is_call (ev : event) : bool :=
  match ev with EvCall => true | EvSleep _ => false end.

(** Number of remote calls made so far. *)
Definition calls (w : world) : nat := length (List.filter is_call (trace w)).

(** ** State and exception monad *)

Definition M (A : Type) : Type := world -> (exn + A) * world.

Definition ret {A} (a : A) : M A := fun w => (inr a, w).

Definition raise {A} (e : exn) : M A := fun w => (inl e, w).

Definition bind {A B} (m : M A) (k : A -> M B) : M B :=
  fun w => match m w with
           | (inl e, w') => (inl e, w')
           | (inr a, w') => k a w'
           end.

(** [try: m except Exception as e: h e] *)
Definition try_except {A} (m : M A) (h : exn -> M A) : M A :=
  fun w => match m w with
           | (inl e, w') => h e w'
           | (inr a, w') => (inr a, w')
           end.

Notation "'do' x <- m ; k" := (bind m (fun x => k))
  (at level 10, x name, m at level 100, k at level 200).
Notation "m ;; k" := (bind m (fun _ => k))
  (at level 100, k at level 200, right associativity).

Definition print (m : message) : M unit :=
  fun w => (inr tt, mkWorld (db w) (trace w) (ticks w) (stdout w ++ [m]) (files w)).

(** [time.sleep(d)] *)
Definition sleep (d : Q) : M unit :=
  fun w => (inr tt, mkWorld (db w) (trace w ++ [EvSleep d]) (ticks w) (stdout w) (files w)).

Definition write_file (path : string) (a : artifact) : M unit :=
  fun w => (inr tt, mkWorld (db w) (trace w) (ticks w) (stdout w) (files w ++ [(path, a)])).

Section Pipeline.

Variable E : env.

(** [datetime.now()] *)
Definition now : M Z :=
  fun w => (inr (datetime_now E (ticks w)),
            mkWorld (db w) (trace w) (S (ticks w)) (stdout w) (files w)).

(** One call to the remote service through [f]. *)
Definition remote (f : nat -> Z -> string -> exn + response) (qid : Z) (name : string)
  : M response :=
  fun w => (f (calls w) qid name,
            mkWorld (db w) (trace w ++ [EvCall]) (ticks w) (stdout w) (files w)).

(** AUTOINCREMENT: one more than the largest rowid. *)
Definition next_rowid (tbl : list QueryResult) : Z :=
  1 + foldr (fun r acc => Z.max (id r) acc) 0 tbl.

(** [INSERT INTO query_results (logical_name, query_id, data, timestamp,
    row_count) VALUES (?, ?, ?, ?, ?)]; returns [cursor.lastrowid]. *)
Definition sql_insert (name : string) (qid : Z) (data_json ts : string) (n : Z) : M Z :=
  fun w => let rid := next_rowid (db w) in
           (inr rid,
            mkWorld (db w ++ [mkQueryResult rid name qid data_json ts n])
                    (trace w) (ticks w) (stdout w) (files w)).

(** The SELECT of [get_query], [tail], [list_queries] and
    [export_for_artemis] followed by [fetchone()]. *)
Definition sql_select_latest (name : string) : M (option QueryResult) :=
  fun w => (inr (select_latest name (db w)), w).

(** *** [_retry_with_backoff] *)

Definition backoff_delay (base_delay : Q) (attempt : nat) : Q :=
  Qmult base_delay (inject_Z (2 ^ Z.of_nat attempt)).

Fixpoint retry_loop {A} (func : M A) (max_retries : Z) (base_delay : Q)
    (attempts : list nat) : M A :=
  match attempts with
  | [] => raise MaxRetriesExceeded
  | attempt :: rest =>
      try_except func (fun e =>
        if (Z.of_nat attempt =? max_retries - 1)%Z then raise e
        else
          let delay := backoff_delay base_delay attempt in
          print (MsgAttemptFailed (Z.of_nat attempt + 1) e) ;;
          print (MsgRetryingIn delay) ;;
          sleep delay ;;
          retry_loop func max_retries base_delay rest)
  end.

Definition _retry_with_backoff {A} (func : M A) (max_retries : Z) (base_delay : Q) : M A :=
  retry_loop func max_retries base_delay (seq 0 (Z.to_nat max_retries)).

(** *** [fetch_query] *)

(** [rows] is falsy when it is [None] or empty. *)
Definition truthy_rows (rows : option (list row)) : option (list row) :=
  match rows with
  | Some (r :: rest) => Some (r :: rest)
  | _ => None
  end.

Definition fetch_query (logical_name : string) (wait_for_completion : bool)
  : M (option QueryResult) :=
  match catalog_get (catalog E) logical_name with
  | None =>
      print (MsgUnknownQuery logical_name) ;;
      print (MsgAvailableQueries (map fst (catalog E))) ;;
      ret None
  | Some query_id =>
      print (MsgFetching logical_name query_id) ;;
      try_except
        (do results <-
           (if wait_for_completion
            then _retry_with_backoff (remote (run_query E) query_id logical_name) 3 1%Q
            else _retry_with_backoff (remote (get_latest_result E) query_id logical_name) 3 1%Q);
         match results with
         | NoResponse | NoResult =>
             print (MsgNoResults query_id) ;;
             ret None
         | Rows rows =>
             let row_count :=
               match truthy_rows rows with
               | Some rs => Z.of_nat (length rs)
               | None => 0
               end in
             do t <- now;
             let timestamp := isoformat E t in
             let data_json :=
               match truthy_rows rows with
               | Some rs => json_dumps E rs
               | None => "[]"
               end in
             do lastrowid <- sql_insert logical_name query_id data_json timestamp row_count;
             print (MsgFetched row_count) ;;
             ret (Some (mkQueryResult lastrowid logical_name query_id data_json
                                      timestamp row_count))
         end)
        (fun e => print (MsgFetchError e) ;; ret None)
  end.

(** *** [fetch_all] *)

Fixpoint fetch_all_loop (names : list string)
    (results : list (string * option QueryResult))
  : M (list (string * option QueryResult)) :=
  match names with
  | [] => ret results
  | logical_name :: rest =>
      do r <- fetch_query logical_name true;
      sleep 1%Q ;;
      fetch_all_loop rest (results ++ [(logical_name, r)])
  end.

Definition fetch_all : M (list (string * option QueryResult)) :=
  print (MsgFetchAllStart (Z.of_nat (length (catalog E)))) ;;
  do results <- fetch_all_loop (map fst (catalog E)) [];
  let successful := Z.of_nat (length (filter (fun p => is_Some (snd p)) results)) in
  print (MsgFetchAllDone successful (Z.of_nat (length (catalog E)))) ;;
  ret results.

(** *** Python slicing *)

(** The bound [i] of a slice of a sequence of length [len]: negative
    bounds count from the end, and every bound is clamped to [0, len]. *)
Definition slice_bound (len i : Z) : Z :=
  if (i <? 0)%Z then Z.max 0 (len + i) else Z.min i len.

(** [l[start:stop]] *)
Definition py_slice {A} (l : list A) (start stop : Z) : list A :=
  let len := Z.of_nat (length l) in
  let lo := slice_bound len start in
  let hi := slice_bound len stop in
  take (Z.to_nat (hi - lo)) (drop (Z.to_nat lo) l).

(** [l[start:]] *)
Definition py_slice_from {A} (l : list A) (start : Z) : list A :=
  drop (Z.to_nat (slice_bound (Z.of_nat (length l)) start)) l.

(** *** [get_query] and [tail] *)

Definition get_query (logical_name : string) (limit offset : Z) : M (option (list row)) :=
  match catalog_get (catalog E) logical_name with
  | None => print (MsgUnknownQuery logical_name) ;; ret None
  | Some _ =>
      do r <- sql_select_latest logical_name;
      match r with
      | None => print (MsgNoData logical_name) ;; ret None
      | Some e =>
          match json_loads E (data e) with
          | None => print (MsgParseError logical_name) ;; ret None
          | Some all_data =>
              let paginated_data := py_slice all_data offset (offset + limit) in
              print (MsgShowing logical_name (row_count e)
                                (Z.of_nat (length paginated_data)) (timestamp e)) ;;
              ret (Some paginated_data)
          end
      end
  end.

Definition tail (logical_name : string) (n : Z) : M (option (list row)) :=
  match catalog_get (catalog E) logical_name with
  | None => print (MsgUnknownQuery logical_name) ;; ret None
  | Some _ =>
      do r <- sql_select_latest logical_name;
      match r with
      | None => print (MsgNoData logical_name) ;; ret None
      | Some e =>
          match json_loads E (data e) with
          | None => print (MsgParseError logical_name) ;; ret None
          | Some all_data =>
              let tail_data :=
                if (Z.of_nat (length all_data) >? n)%Z
                then py_slice_from all_data (- n)
                else all_data in
              print (MsgShowing logical_name (Z.of_nat (length all_data))
                                (Z.of_nat (length tail_data)) (timestamp e)) ;;
              ret (Some tail_data)
          end
      end
  end.

(** *** [list_queries] *)

Record query_info : Type := mkQueryInfo {
  info_logical_name : string;
  info_query_id : Z;
  info_last_fetch : option string;
  info_row_count : Z
}.

Fixpoint list_queries_loop (items : list (string * Z)) (acc : list query_info)
  : M (list query_info) :=
  match items with
  | [] => ret acc
  | (logical_name, query_id) :: rest =>
      do r <- sql_select_latest logical_name;
      let last_fetch := timestamp <$> r in
      let n := match r with Some e => row_count e | None => 0 end in
      list_queries_loop rest (acc ++ [mkQueryInfo logical_name query_id last_fetch n])
  end.

Definition list_queries : M (list query_info) :=
  list_queries_loop (catalog E) [].

(** *** [export_for_artemis] *)

(** [{**row_data, "_query_name": ..., "_query_id": ..., "_fetched_at": ...,
     "_exported_at": ...}]: later keys of a dict display win. *)
Definition enrich (row_data : row) (logical_name : string) (query_id : Z)
    (fetched_at exported_at : string) : row :=
  <["_exported_at" := VStr exported_at]>
    (<["_fetched_at" := VStr fetched_at]>
      (<["_query_id" := VInt query_id]>
        (<["_query_name" := VStr logical_name]> row_data))).

Fixpoint enrich_rows (logical_name : string) (query_id : Z) (fetched_at : string)
    (rows : list row) (all_data : list row) : M (list row) :=
  match rows with
  | [] => ret all_data
  | row_data :: rest =>
      do t <- now;
      enrich_rows logical_name query_id fetched_at rest
        (all_data ++ [enrich row_data logical_name query_id fetched_at (isoformat E t)])
  end.

Definition add_query (s : export_summary) (r : export_record) : export_summary :=
  mkExportSummary (summary_timestamp s) (queries_exported s ++ [r])
                  (total_rows s + exp_row_count r) (files_created s).

Definition add_file (s : export_summary) (path : string) : export_summary :=
  mkExportSummary (summary_timestamp s) (queries_exported s)
                  (total_rows s) (files_created s ++ [path]).

(** The loop over [QUERY_IDS.items()]. *)
Fixpoint export_loop (items : list (string * Z)) (all_data : list row)
    (summary : export_summary) : M (list row * export_summary) :=
  match items with
  | [] => ret (all_data, summary)
  | (logical_name, query_id) :: rest =>
      do r <- sql_select_latest logical_name;
      match r with
      | None =>
          print (WarnSkipNoData logical_name) ;;
          export_loop rest all_data summary
      | Some e =>
          match json_loads E (data e) with
          | None =>
              print (WarnSkipInvalidJSON logical_name) ;;
              export_loop rest all_data summary
          | Some [] =>
              print (WarnSkipEmpty logical_name) ;;
              export_loop rest all_data summary
          | Some rows =>
              do all_data' <- enrich_rows logical_name query_id (timestamp e) rows all_data;
              let summary' :=
                add_query summary
                  (mkExportRecord logical_name query_id (row_count e) (timestamp e)) in
              print (MsgExported logical_name (row_count e)) ;;
              export_loop rest all_data' summary'
          end
      end
  end.

Definition format_in (format : string) (choices : list string) : bool :=
  existsb (String.eqb format) choices.

Definition path_join (dir file : string) : string :=
  String.append dir (String.append "/" file).

Definition export_for_artemis (output_dir format : string) : M export_summary :=
  if negb (HAS_PANDAS E) then raise ImportError
  else
    do t0 <- now;
    let export_summary0 := mkExportSummary (isoformat E t0) [] 0 [] in
    print (MsgExporting output_dir) ;;
    do collected <- export_loop (catalog E) [] export_summary0;
    let all_data := fst collected in
    let summary := snd collected in
    match all_data with
    | [] => print WarnNothingToExport ;; ret summary
    | _ :: _ =>
        do t1 <- now;
        let timestamp_str := strftime E t1 in
        do summary1 <-
          (if format_in format ["parquet"; "both"] then
             let parquet_path :=
               path_join output_dir
                 (String.append "artemis_x402_dune_data_"
                                (String.append timestamp_str ".parquet")) in
             write_file parquet_path (Parquet all_data) ;;
             print (MsgFileWritten parquet_path) ;;
             ret (add_file summary parquet_path)
           else ret summary);
        do summary2 <-
          (if format_in format ["csv"; "both"] then
             let csv_path :=
               path_join output_dir
                 (String.append "artemis_x402_dune_data_"
                                (String.append timestamp_str ".csv")) in
             write_file csv_path (Csv all_data) ;;
             print (MsgFileWritten csv_path) ;;
             ret (add_file summary1 csv_path)
           else ret summary1);
        let schema_path :=
          path_join output_dir
            (String.append "artemis_x402_dune_schema_"
                           (String.append timestamp_str ".json")) in
        write_file schema_path
          (Schema (summary_timestamp summary2) (Z.of_nat (length all_data))
                  (queries_exported summary2)) ;;
        let summary3 := add_file summary2 schema_path in
        print (MsgFileWritten schema_path) ;;
        print (MsgExportSummary (Z.of_nat (length (queries_exported summary3)))
                                (total_rows summary3)
                                (Z.of_nat (length (files_created summary3)))) ;;
        ret summary3
    end.

(** *** [run_dbt_transforms]

    The external transformation step: not installed, raising, or returning
    [result.success].  The function catches everything. *)
Definition run_dbt_transforms : M bool :=
  match dbt_invoke E with
  | None => ret false
  | Some (inl _) => ret false
  | Some (inr success) => ret success
  end.

(** *** The command line of [x402_pipeline.py] *)

Inductive command : Type :=
  | CmdFetch (name : string)
  | CmdFetchAll
  | CmdGet (name : string) (limit offset : Z)
  | CmdTail (name : string) (n : Z)
  | CmdList
  | CmdExport (output_dir format : string).

Definition run_command (c : command) : M unit :=
  match c with
  | CmdFetch name => fetch_query name true ;; ret tt
  | CmdFetchAll => fetch_all ;; ret tt
  | CmdGet name limit offset => get_query name limit offset ;; ret tt
  | CmdTail name n => tail name n ;; ret tt
  | CmdList => list_queries ;; ret tt
  | CmdExport output_dir format => export_for_artemis output_dir format ;; ret tt
  end.

(** ** [scheduler.py] *)

(** [DuneDataPipeline(db_path, api_key)]: the key is [api_key or
    os.getenv("DUNE_API_KEY")]; [CREATE TABLE IF NOT EXISTS] leaves the rows
    alone. *)
Definition nonempty_key (k : option string) : bool :=
  match k with
  | Some (String _ _) => true
  | _ => false
  end.

Definition init_pipeline (api_key : option string) : M unit :=
  if nonempty_key api_key || nonempty_key (DUNE_API_KEY E) then ret tt
  else raise ValueError.

(** [run_daily_update]; [setup_logging] reads [datetime.now()] once for the
    name of the log file. *)
Definition run_daily_update (api_key : option string) (output_dir export_format : string)
  : M bool :=
  now ;;
  try_except
    (init_pipeline api_key ;;
     fetch_all ;;
     export_for_artemis output_dir export_format ;;
     run_dbt_transforms ;;
     ret true)
    (fun _ => ret false).

(** [timedelta(hours=h)] on datetimes counted in microseconds. *)
Definition timedelta_hours (h : Z) : Z := h * 3600000000.

(** One turn of the [while True] loop of [run_continuous_scheduler]. *)
Definition scheduler_iteration (api_key : option string) (output_dir export_format : string)
    (interval_hours : Z) (next_update : Z) : M Z :=
  do now_ <- now;
  do next_update' <-
    (if (now_ >=? next_update)%Z then
       do success <- run_daily_update api_key output_dir export_format;
       if success
       then ret (now_ + timedelta_hours interval_hours)
       else ret (now_ + timedelta_hours 1)
     else ret next_update);
  sleep 60%Q ;;
  ret next_update'.

Fixpoint scheduler_loop (turns : nat) (api_key : option string)
    (output_dir export_format : string) (interval_hours : Z) (next_update : Z) : M Z :=
  match turns with
  | O => ret next_update
  | S turns' =>
      do next_update' <-
        scheduler_iteration api_key output_dir export_format interval_hours next_update;
      scheduler_loop turns' api_key output_dir export_format interval_hours next_update'
  end.


End Pipeline.

(** ** Reading the trace *)


(** Attempts [i .. i+n-1] failing, each followed by its backoff sleep. *)
Definition failed_attempts (base_delay : Q) (i n : nat) : list event :=
  flat_map (fun k => [EvCall; EvSleep (backoff_delay base_delay k)]) (seq i n).


(** The client method [fetch_query] goes through for a given mode. *)
Definition fetch_service (E : env) (wait_for_completion : bool)
  : nat -> Z -> string -> exn + response :=
  if wait_for_completion then run_query E else get_latest_result E.

(** What [fetch_query] stores for the rows of a result: the row count and
    the JSON text. *)
Definition stored_count (rows : option (list row)) : Z :=
  match truthy_rows rows with
  | Some rs => Z.of_nat (length rs)
  | None => 0
  end.

Definition stored_data (E : env) (rows : option (list row)) : string :=
  match truthy_rows rows with
  | Some rs => json_dumps E rs
  | None => "[]"
  end.

(** ** Reading the table the way the exporter does *)

(** The three reasons for which [export_for_artemis] passes over a name:
    no cached row, a payload that does not parse, an empty row sequence. *)
Definition is_skipped (E : env) (tbl : list QueryResult) (name : string) : bool :=
  match select_latest name tbl with
  | None => true
  | Some e =>
      match json_loads E (data e) with
      | None => true
      | Some [] => true
      | Some (_ :: _) => false
      end
  end.

(** The warning printed for a skipped name. *)
Definition skip_warning (E : env) (tbl : list QueryResult) (name : string) : option message :=
  match select_latest name tbl with
  | None => Some (WarnSkipNoData name)
  | Some e =>
      match json_loads E (data e) with
      | None => Some (WarnSkipInvalidJSON name)
      | Some [] => Some (WarnSkipEmpty name)
      | Some (_ :: _) => None
      end
  end.

(** The decoded rows of the latest cached result of a name. *)
Definition latest_rows (E : env) (tbl : list QueryResult) (name : string) : list row :=
  match select_latest name tbl with
  | None => []
  | Some e => default [] (json_loads E (data e))
  end.

(** The [row_count] column of the latest cached result of a name. *)
Definition latest_row_count (tbl : list QueryResult) (name : string) : Z :=
  match select_latest name tbl with
  | None => 0
  | Some e => row_count e
  end.

(** The [timestamp] column of the latest cached result of a name. *)
Definition latest_timestamp (tbl : list QueryResult) (name : string) : string :=
  match select_latest name tbl with
  | None => ""
  | Some e => timestamp e
  end.

(** The catalog entries the exporter keeps, in catalog order. *)
Definition kept_entries (E : env) (tbl : list QueryResult) (items : list (string * Z))
  : list (string * Z) :=
  List.filter (fun item => negb (is_skipped E tbl (fst item))) items.

Definition record_of (tbl : list QueryResult) (item : string * Z) : export_record :=
  mkExportRecord (fst item) (snd item)
                 (latest_row_count tbl (fst item)) (latest_timestamp tbl (fst item)).

(** The source rows the exporter aggregates, each with the catalog entry it
    comes from. *)
Definition source_rows (E : env) (tbl : list QueryResult) (items : list (string * Z))
  : list (row * (string * Z)) :=
  flat_map (fun item => map (fun src => (src, item)) (latest_rows E tbl (fst item)))
           (kept_entries E tbl items).

(** [r] is the source row [src] of catalog entry [item], enriched. *)
Definition enriched_from (E : env) (tbl : list QueryResult)
    (r : row) (s : row * (string * Z)) : Prop :=
  exists exported_at,
    r = enrich (fst s) (fst (snd s)) (snd (snd s))
               (latest_timestamp tbl (fst (snd s))) exported_at.

Definition sum_Z (l : list Z) : Z := foldr Z.add 0 l.



(** ** Effects on the table *)

(** [m] leaves the table as it found it. *)
Definition keeps_db {A} (m : M A) : Prop :=
  forall w, db (snd (m w)) = db w.


(** ** The ways [fetch_query] comes back empty-handed *)

Inductive failure_mode : Type :=
  | UnknownName
  | RetriesExhausted
  | AbsentResult.

(** The situation of [fetch_query E name wait] started in [w]: the name is
    not in the catalog; or each of the three attempts raises; or the first
    attempt that returns hands back a response without a result. *)
Definition in_failure_mode (E : env) (name : string) (wait : bool) (w : world)
    (m : failure_mode) : Prop :=
  match m with
  | UnknownName => catalog_get (catalog E) name = None
  | RetriesExhausted =>
      exists qid,
        catalog_get (catalog E) name = Some qid /\
        forall j, (j < 3)%nat ->
          exists e, fetch_service E wait (calls w + j)%nat qid name = inl e
  | AbsentResult =>
      exists qid k resp,
        catalog_get (catalog E) name = Some qid /\
        (k < 3)%nat /\
        (forall j, (j < k)%nat ->
           exists e, fetch_service E wait (calls w + j)%nat qid name = inl e) /\
        fetch_service E wait (calls w + k)%nat qid name = inr resp /\
        (resp = NoResponse \/ resp = NoResult)
  end.

(** ** Test doubles

    A small environment and a few tables on which the definitions are run. *)

Module Fixtures.

Definition dq : string := String (Ascii.ascii_of_nat 34) EmptyString.

Definition quoted (s : string) : string := String.append dq (String.append s dq).

(** [{"x": 1}] *)
Definition row_x1 : row := {[ "x" := VInt 1 ]}.

(** [{"x": 1, "_query_name": "collision"}] *)
Definition row_collision : row :=
  <[ "_query_name" := VStr "collision" ]> row_x1.

Definition payload_x1 : string :=
  String.append "[{" (String.append (quoted "x") ": 1}]").

Definition payload_collision : string :=
  String.append "[{"
    (String.append (quoted "x")
      (String.append ": 1, "
        (String.append (quoted "_query_name")
          (String.append ": " (String.append (quoted "collision") "}]"))))).

(** A decoder that knows the payloads above and rejects everything else. *)
Definition loads (s : string) : option (list row) :=
  if String.eqb s "[]" then Some []
  else if String.eqb s payload_x1 then Some [row_x1]
  else if String.eqb s payload_collision then Some [row_collision]
  else None.

Definition dumps (rows : list row) : string :=
  match rows with
  | [r] => if bool_decide (r !! "_query_name" = None) then payload_x1 else payload_collision
  | _ => "[]"
  end.

Definition digit (n : Z) : string :=
  match n with
  | 0 => "0" | 1 => "1" | 2 => "2" | 3 => "3" | 4 => "4"
  | 5 => "5" | 6 => "6" | 7 => "7" | 8 => "8" | _ => "9"
  end.

(** Readings of the clock one second apart, in microseconds. *)
Definition clock (n : nat) : Z := Z.of_nat n * 1000000.

Definition iso (t : Z) : string :=
  String.append "2026-11-04T09:00:0" (digit ((t / 1000000) mod 10)).

Definition compact (t : Z) : string :=
  String.append "20261104_09000" (digit ((t / 1000000) mod 10)).

(** A remote service that is down. *)
Definition always_down (n : nat) (qid : Z) (name : string) : exn + response :=
  inl (RemoteError "503").

(** A remote service that answers every call with one row. *)
Definition one_row (n : nat) (qid : Z) (name : string) : exn + response :=
  inr (Rows (Some [row_x1])).


Definition test_env (service : nat -> Z -> string -> exn + response) (pandas : bool) : env :=
  mkEnv QUERY_IDS service service clock iso compact dumps loads pandas (Some "key") None.

Definition empty_world : world := mkWorld [] [] 0 [] [].

Definition with_db (tbl : list QueryResult) : world := mkWorld tbl [] 0 [] [].

(** Two cached results of the same name with the same timestamp. *)
Definition tie_first : QueryResult :=
  mkQueryResult 1 "num transactions" 6084845 "[]" "2026-11-04T09:00:00" 0.

Definition tie_second : QueryResult :=
  mkQueryResult 2 "num transactions" 6084845 payload_x1 "2026-11-04T09:00:00" 1.


(** One cached result with one row. *)
Definition x1_entry : QueryResult :=
  mkQueryResult 1 "num transactions" 6084845 payload_x1 "2026-11-04T08:59:59" 1.

End Fixtures.

(** ** Measures and shapes used by the further properties *)

(** Seconds slept along a trace. *)
Definition total_sleep (tr : list event) : Q :=
  foldr (fun ev acc => match ev with EvSleep d => Qplus d acc | EvCall => acc end) 0%Q tr.


(** [qr] is a row that a successful [fetch_query] adds to the table [tbl]:
    its key is the next rowid, its name is in the catalog with its query
    identifier, and its payload and row count come from rows the client
    returned for that query. *)
Definition appended_by_fetch (E : env) (tbl : list QueryResult) (qr : QueryResult) : Prop :=
  id qr = next_rowid tbl /\
  exists wait n rows,
    catalog_get (catalog E) (logical_name qr) = Some (query_id qr) /\
    fetch_service E wait n (query_id qr) (logical_name qr) = inr (Rows rows) /\
    data qr = stored_data E rows /\
    row_count qr = stored_count rows.

(** [tbl'] is [tbl] followed by rows added one after the other by successful
    fetches. *)
Inductive grown_by_fetches (E : env) (tbl : list QueryResult) : list QueryResult -> Prop :=
  | grown_same : grown_by_fetches E tbl tbl
  | grown_append (tbl' : list QueryResult) (qr : QueryResult) :
      grown_by_fetches E tbl tbl' ->
      appended_by_fetch E tbl' qr ->
      grown_by_fetches E tbl (tbl' ++ [qr]).

(** Every row [m] adds to the table is added by a successful fetch. *)
Definition grows_by_fetches {A} (E : env) (m : M A) : Prop :=
  forall w, grown_by_fetches E (db w) (db (snd (m w))).

(** Keys grow with the order of insertion. *)
Definition ids_increasing (tbl : list QueryResult) : Prop :=
  forall i j e1 e2,
    tbl !! i = Some e1 -> tbl !! j = Some e2 -> (i < j)%nat -> id e1 < id e2.

(** Every cached row carries a catalog name together with the identifier
    the catalog gives to that name. *)
Definition catalog_coherent (E : env) (tbl : list QueryResult) : Prop :=
  Forall (fun e => catalog_get (catalog E) (logical_name e) = Some (query_id e)) tbl.

(** The payload of a row decodes, and [row_count] is the number of rows in
    it. *)
Definition row_count_matches (E : env) (e : QueryResult) : Prop :=
  exists rows, json_loads E (data e) = Some rows /\ row_count e = Z.of_nat (length rows).

(** [json.loads] undoes [json.dumps] on the row sequences the client
    returns, and reads "[]" as the empty sequence. *)
Definition json_round_trips (E : env) : Prop :=
  json_loads E "[]" = Some [] /\
  forall wait n qid name r rs,
    fetch_service E wait n qid name = inr (Rows (Some (r :: rs))) ->
    json_loads E (json_dumps E (r :: rs)) = Some (r :: rs).

(** The entry [list_queries] reports for a catalog entry. *)
Definition info_of (tbl : list QueryResult) (item : string * Z) : query_info :=
  mkQueryInfo (fst item) (snd item)
              (timestamp <$> select_latest (fst item) tbl)
              (latest_row_count tbl (fst item)).

(** [w] with [msgs] printed and nothing else changed. *)
Definition printed (w : world) (msgs : list message) : world :=
  mkWorld (db w) (trace w) (ticks w) (stdout w ++ msgs) (files w).

(** The files one export writes, in the order it writes them; [stamp] is
    the [strftime] suffix shared by their names. *)
Definition export_artifacts (output_dir format stamp : string) (all_data : list row)
    (export_timestamp : string) (records : list export_record)
  : list (string * artifact) :=
  (if format_in format ["parquet"; "both"]
   then [(path_join output_dir
            (String.append "artemis_x402_dune_data_" (String.append stamp ".parquet")),
          Parquet all_data)]
   else []) ++
  (if format_in format ["csv"; "both"]
   then [(path_join output_dir
            (String.append "artemis_x402_dune_data_" (String.append stamp ".csv")),
          Csv all_data)]
   else []) ++
  [(path_join output_dir
      (String.append "artemis_x402_dune_schema_" (String.append stamp ".json")),
    Schema export_timestamp (Z.of_nat (length all_data)) records)].
(** ** String order facts *)

Lemma string_compare_refl (s : string) : String.compare s s = Eq.
Proof. apply String_as_OT.cmp_eq. reflexivity. Qed.

Lemma string_leb_refl (s : string) : String.leb s s = true.
Proof. unfold String.leb. rewrite string_compare_refl. reflexivity. Qed.

Lemma string_ltb_leb (a b : string) : String.ltb a b = true -> String.leb a b = true.
Proof. unfold String.ltb, String.leb. destruct (String.compare a b); congruence. Qed.

Lemma string_leb_false_ltb (a b : string) : String.leb a b = false -> String.ltb b a = true.
Proof.
  unfold String.ltb, String.leb. rewrite (String.compare_antisym a b).
  destruct (String.compare b a); simpl; congruence.
Qed.

Lemma string_ltb_trans (a b c : string) :
  String.ltb a b = true -> String.ltb b c = true -> String.ltb a c = true.
Proof.
  unfold String.ltb.
  destruct (String.compare a b) eqn:Hab; try discriminate.
  destruct (String.compare b c) eqn:Hbc; try discriminate.
  intros _ _.
  apply String_as_OT.cmp_lt in Hab. apply String_as_OT.cmp_lt in Hbc.
  pose proof (String_as_OT.lt_trans _ _ _ Hab Hbc) as Hac.
  apply String_as_OT.cmp_lt in Hac. unfold String_as_OT.cmp in Hac.
  rewrite Hac. reflexivity.
Qed.

Lemma string_leb_ltb_trans (a b c : string) :
  String.leb a b = true -> String.ltb b c = true -> String.ltb a c = true.
Proof.
  unfold String.leb. destruct (String.compare a b) eqn:Hab; try discriminate; intros _ Hbc.
  - apply String.compare_eq_iff in Hab. subst. exact Hbc.
  - apply (string_ltb_trans a b c); [| exact Hbc].
    unfold String.ltb. rewrite Hab. reflexivity.
Qed.

Lemma string_ltb_leb_trans (a b c : string) :
  String.ltb a b = true -> String.leb b c = true -> String.ltb a c = true.
Proof.
  unfold String.leb. destruct (String.compare b c) eqn:Hbc; try discriminate; intros Hab _.
  - apply String.compare_eq_iff in Hbc. subst. exact Hab.
  - apply (string_ltb_trans a b c); [exact Hab |].
    unfold String.ltb. rewrite Hbc. reflexivity.
Qed.

Lemma string_leb_trans (a b c : string) :
  String.leb a b = true -> String.leb b c = true -> String.leb a c = true.
Proof.
  intros Hab Hbc. unfold String.leb in Hbc.
  destruct (String.compare b c) eqn:E; try discriminate.
  - apply String.compare_eq_iff in E. subst. exact Hab.
  - apply string_ltb_leb. apply (string_leb_ltb_trans a b c); [exact Hab|].
    unfold String.ltb. rewrite E. reflexivity.
Qed.

Lemma string_ltb_irrefl (s : string) : String.ltb s s = false.
Proof. unfold String.ltb. rewrite string_compare_refl. reflexivity. Qed.

(** ** Facts about the latest-result query *)

Lemma head_insert_desc (x : QueryResult) (l : list QueryResult) :
  head (insert_desc x l) = Some (pick_desc x (head l)).
Proof.
  destruct l as [|y l]; simpl; [reflexivity|].
  destruct (String.leb (timestamp y) (timestamp x)); reflexivity.
Qed.

Lemma select_latest_nil (name : string) : select_latest name [] = None.
Proof. reflexivity. Qed.

Lemma select_latest_cons (name : string) (x : QueryResult) (tbl : list QueryResult) :
  select_latest name (x :: tbl) =
    if decide (logical_name x = name)
    then Some (pick_desc x (select_latest name tbl))
    else select_latest name tbl.
Proof.
  unfold select_latest, where_logical_name.
  rewrite filter_cons. destruct (decide (logical_name x = name)) as [Hx|Hx].
  - simpl. apply head_insert_desc.
  - reflexivity.
Qed.

Lemma select_latest_None (name : string) (tbl : list QueryResult) :
  select_latest name tbl = None <->
  (forall e, e ∈ tbl -> logical_name e <> name).
Proof.
  induction tbl as [|x tbl IH].
  - split; [intros _ e He; inversion He | reflexivity].
  - rewrite select_latest_cons. destruct (decide (logical_name x = name)) as [Hx|Hx].
    + split; [discriminate|]. intros H. exfalso. apply (H x); [left | exact Hx].
    + rewrite IH. split.
      * intros H e He. apply elem_of_cons in He as [->|He]; [exact Hx | apply H, He].
      * intros H e He. apply H. right. exact He.
Qed.

Lemma select_latest_is_Some (name : string) (tbl : list QueryResult) :
  (exists e0, e0 ∈ tbl /\ logical_name e0 = name) -> is_Some (select_latest name tbl).
Proof.
  intros (e0 & Hin & Hname).
  destruct (select_latest name tbl) as [e|] eqn:E; [eauto|].
  exfalso. exact (proj1 (select_latest_None name tbl) E e0 Hin Hname).
Qed.

(** The row returned has the greatest timestamp of its name; every row of
    that name scanned before it is strictly older. *)
Lemma select_latest_spec (name : string) (tbl : list QueryResult) (e : QueryResult) :
  select_latest name tbl = Some e ->
  exists l1 l2,
    tbl = l1 ++ e :: l2 /\ logical_name e = name /\
    (forall e', e' ∈ l1 -> logical_name e' = name ->
       String.ltb (timestamp e') (timestamp e) = true) /\
    (forall e', e' ∈ l2 -> logical_name e' = name ->
       String.leb (timestamp e') (timestamp e) = true).
Proof.
  revert e. induction tbl as [|x tbl IH]; intros e; [discriminate|].
  rewrite select_latest_cons. destruct (decide (logical_name x = name)) as [Hx|Hx].
  - destruct (select_latest name tbl) as [y|] eqn:Hy; simpl.
    + destruct (IH y eq_refl) as (l1 & l2 & -> & Hny & Hl1 & Hl2).
      destruct (String.leb (timestamp y) (timestamp x)) eqn:Hyx; intros [= <-].
      * exists [], (l1 ++ y :: l2). repeat split; [exact Hx | intros e' He'; inversion He' |].
        intros e' He' Hn. apply (string_leb_trans _ (timestamp y)); [|exact Hyx].
        apply elem_of_app in He' as [He'|He'].
        -- apply string_ltb_leb. auto.
        -- apply elem_of_cons in He' as [->|He']; [apply string_leb_refl | auto].
      * exists (x :: l1), l2. repeat split; [exact Hny | | exact Hl2].
        intros e' He' Hn. apply elem_of_cons in He' as [->|He']; [|auto].
        apply string_leb_false_ltb. exact Hyx.
    + intros [= <-]. exists [], tbl. repeat split; [exact Hx | intros e' He'; inversion He' |].
      intros e' He' Hn. exfalso.
      exact (proj1 (select_latest_None name tbl) Hy e' He' Hn).
  - intros He. destruct (IH e He) as (l1 & l2 & -> & Hne & Hl1 & Hl2).
    exists (x :: l1), l2. repeat split; [exact Hne | | exact Hl2].
    intros e' He' Hn. apply elem_of_cons in He' as [->|He']; [contradiction | auto].
Qed.

(** Appending a row (an INSERT) and reading again. *)
Lemma select_latest_snoc (name : string) (tbl : list QueryResult) (e : QueryResult) :
  select_latest name (tbl ++ [e]) =
    if decide (logical_name e = name)
    then match select_latest name tbl with
         | None => Some e
         | Some y => if String.ltb (timestamp y) (timestamp e) then Some e else Some y
         end
    else select_latest name tbl.
Proof.
  induction tbl as [|x tbl IH].
  - simpl. rewrite select_latest_cons, select_latest_nil.
    destruct (decide (logical_name e = name)); reflexivity.
  - change ((x :: tbl) ++ [e]) with (x :: (tbl ++ [e])).
    rewrite !select_latest_cons, IH.
    destruct (decide (logical_name x = name)) as [Hx|Hx];
      destruct (decide (logical_name e = name)) as [He|He]; try reflexivity.
    destruct (select_latest name tbl) as [y|]; simpl.
    + destruct (String.ltb (timestamp y) (timestamp e)) eqn:Hye;
        destruct (String.leb (timestamp y) (timestamp x)) eqn:Hyx; simpl.
      * destruct (String.leb (timestamp e) (timestamp x)) eqn:Hex.
        -- destruct (String.ltb (timestamp x) (timestamp e)) eqn:Hxe; [|reflexivity].
           pose proof (string_ltb_leb_trans _ _ _ Hxe Hex) as F.
           rewrite string_ltb_irrefl in F. discriminate.
        -- rewrite (string_leb_false_ltb _ _ Hex). reflexivity.
      * rewrite Hye.
        apply string_leb_false_ltb in Hyx.
        pose proof (string_ltb_trans _ _ _ Hyx Hye) as Hxe.
        destruct (String.leb (timestamp e) (timestamp x)) eqn:Hex; [|reflexivity].
        pose proof (string_ltb_leb_trans _ _ _ Hxe Hex) as F.
        rewrite string_ltb_irrefl in F. discriminate.
      * rewrite Hyx.
        destruct (String.ltb (timestamp x) (timestamp e)) eqn:Hxe; [|reflexivity].
        pose proof (string_leb_ltb_trans _ _ _ Hyx Hxe) as F. congruence.
      * rewrite Hyx, Hye. reflexivity.
    + destruct (String.leb (timestamp e) (timestamp x)) eqn:Hex.
      * destruct (String.ltb (timestamp x) (timestamp e)) eqn:Hxe; [|reflexivity].
        pose proof (string_ltb_leb_trans _ _ _ Hxe Hex) as F.
        rewrite string_ltb_irrefl in F. discriminate.
      * rewrite (string_leb_false_ltb _ _ Hex). reflexivity.
Qed.

Lemma calls_snoc_call (w : world) (tr : list event) :
  length (List.filter is_call (tr ++ [EvCall])) = S (length (List.filter is_call tr)).
Proof. rewrite List.filter_app, length_app. simpl. lia. Qed.

Lemma calls_snoc_sleep (tr : list event) (d : Q) :
  length (List.filter is_call (tr ++ [EvSleep d])) = length (List.filter is_call tr).
Proof. rewrite List.filter_app, length_app. simpl. lia. Qed.

Lemma calls_failed_attempts (base_delay : Q) (i n : nat) :
  length (List.filter is_call (failed_attempts base_delay i n)) = n.
Proof.
  unfold failed_attempts. revert i. induction n as [|n IH]; intros i; simpl; [reflexivity|].
  f_equal. apply IH.
Qed.


(** ** The retry loop on a remote call *)

Section Retry.

Variable f : nat -> Z -> string -> exn + response.
Variables (qid : Z) (name : string).
Variable base_delay : Q.

(** All the remaining attempts fail: the last error is raised, after one
    call per attempt and one sleep after each attempt but the last. *)
Lemma retry_loop_all_fail (N n i : nat) (w : world) (last : exn) :
  (i + S n = N)%nat ->
  (forall j, (j < n)%nat -> exists e, f (calls w + j)%nat qid name = inl e) ->
  f (calls w + n)%nat qid name = inl last ->
  exists msgs,
    retry_loop (remote f qid name) (Z.of_nat N) base_delay (seq i (S n)) w =
      (inl last,
       mkWorld (db w) (trace w ++ failed_attempts base_delay i n ++ [EvCall])
               (ticks w) (stdout w ++ msgs) (files w)).
Proof.
  revert i w. induction n as [|n IH]; intros i w HN Hfail Hlast.
  - exists []. simpl. unfold try_except, remote.
    replace (calls w + 0)%nat with (calls w) in Hlast by lia. rewrite Hlast.
    replace (Z.of_nat i =? Z.of_nat N - 1)%Z with true by (symmetry; apply Z.eqb_eq; lia).
    unfold raise. simpl. rewrite app_nil_r. reflexivity.
  - destruct (Hfail 0%nat ltac:(lia)) as [e0 He0].
    replace (calls w + 0)%nat with (calls w) in He0 by lia.
    set (w1 := mkWorld (db w) ((trace w ++ [EvCall]) ++ [EvSleep (backoff_delay base_delay i)])
                       (ticks w)
                       ((stdout w ++ [MsgAttemptFailed (Z.of_nat i + 1) e0]) ++
                          [MsgRetryingIn (backoff_delay base_delay i)])
                       (files w)).
    assert (Hc : calls w1 = S (calls w)).
    { unfold calls, w1. simpl. rewrite calls_snoc_sleep, (calls_snoc_call w). reflexivity. }
    destruct (IH (S i) w1) as [msgs Hrun].
    + lia.
    + intros j Hj. rewrite Hc. replace (S (calls w) + j)%nat with (calls w + S j)%nat by lia.
      apply Hfail. lia.
    + rewrite Hc. replace (S (calls w) + n)%nat with (calls w + S n)%nat by lia.
      exact Hlast.
    + exists ([MsgAttemptFailed (Z.of_nat i + 1) e0; MsgRetryingIn (backoff_delay base_delay i)]
              ++ msgs).
      change (seq i (S (S n))) with (i :: seq (S i) (S n)).
      cbn [retry_loop]. unfold try_except at 1. unfold remote at 1. rewrite He0.
      replace (Z.of_nat i =? Z.of_nat N - 1)%Z with false by (symmetry; apply Z.eqb_neq; lia).
      unfold bind at 1, print at 1. unfold bind at 1, print at 1. unfold bind at 1, sleep at 1.
      cbn [db trace ticks stdout files].
      fold w1. rewrite Hrun. unfold w1. cbn [db trace ticks stdout files].
      f_equal. f_equal.
      * unfold failed_attempts. simpl. rewrite <- !app_assoc. reflexivity.
      * rewrite <- !app_assoc. reflexivity.
Qed.

(** The first success, at attempt [k], ends the loop with its value. *)
Lemma retry_loop_success (N n i k : nat) (w : world) (resp : response) :
  (i + n = N)%nat ->
  (k < n)%nat ->
  (forall j, (j < k)%nat -> exists e, f (calls w + j)%nat qid name = inl e) ->
  f (calls w + k)%nat qid name = inr resp ->
  exists msgs,
    retry_loop (remote f qid name) (Z.of_nat N) base_delay (seq i n) w =
      (inr resp,
       mkWorld (db w) (trace w ++ failed_attempts base_delay i k ++ [EvCall])
               (ticks w) (stdout w ++ msgs) (files w)).
Proof.
  revert n i w. induction k as [|k IH]; intros n i w HN Hk Hfail Hok.
  - destruct n as [|n]; [lia|]. exists []. simpl. unfold try_except, remote.
    replace (calls w + 0)%nat with (calls w) in Hok by lia. rewrite Hok.
    rewrite app_nil_r. reflexivity.
  - destruct n as [|n]; [lia|].
    destruct (Hfail 0%nat ltac:(lia)) as [e0 He0].
    replace (calls w + 0)%nat with (calls w) in He0 by lia.
    set (w1 := mkWorld (db w) ((trace w ++ [EvCall]) ++ [EvSleep (backoff_delay base_delay i)])
                       (ticks w)
                       ((stdout w ++ [MsgAttemptFailed (Z.of_nat i + 1) e0]) ++
                          [MsgRetryingIn (backoff_delay base_delay i)])
                       (files w)).
    assert (Hc : calls w1 = S (calls w)).
    { unfold calls, w1. simpl. rewrite calls_snoc_sleep, (calls_snoc_call w). reflexivity. }
    destruct (IH n (S i) w1) as [msgs Hrun].
    + lia.
    + lia.
    + intros j Hj. rewrite Hc. replace (S (calls w) + j)%nat with (calls w + S j)%nat by lia.
      apply Hfail. lia.
    + rewrite Hc. replace (S (calls w) + k)%nat with (calls w + S k)%nat by lia. exact Hok.
    + exists ([MsgAttemptFailed (Z.of_nat i + 1) e0; MsgRetryingIn (backoff_delay base_delay i)]
              ++ msgs).
      change (seq i (S n)) with (i :: seq (S i) n).
      cbn [retry_loop]. unfold try_except at 1. unfold remote at 1. rewrite He0.
      replace (Z.of_nat i =? Z.of_nat N - 1)%Z with false by (symmetry; apply Z.eqb_neq; lia).
      unfold bind at 1, print at 1. unfold bind at 1, print at 1. unfold bind at 1, sleep at 1.
      cbn [db trace ticks stdout files].
      fold w1. rewrite Hrun. unfold w1. cbn [db trace ticks stdout files].
      f_equal. f_equal.
      * unfold failed_attempts. simpl. rewrite <- !app_assoc. reflexivity.
      * rewrite <- !app_assoc. reflexivity.
Qed.

End Retry.

(** ** [_retry_with_backoff] on a remote call *)

Lemma retry_with_backoff_all_fail f qid name (max_retries : Z) (base_delay : Q)
    (w : world) (last : exn) :
  1 <= max_retries ->
  (forall j, (j < Z.to_nat max_retries - 1)%nat ->
     exists e, f (calls w + j)%nat qid name = inl e) ->
  f (calls w + (Z.to_nat max_retries - 1))%nat qid name = inl last ->
  exists msgs,
    _retry_with_backoff (remote f qid name) max_retries base_delay w =
      (inl last,
       mkWorld (db w)
               (trace w ++ failed_attempts base_delay 0 (Z.to_nat max_retries - 1) ++ [EvCall])
               (ticks w) (stdout w ++ msgs) (files w)).
Proof.
  intros Hm Hfail Hlast. unfold _retry_with_backoff.
  destruct (Z.to_nat max_retries) as [|n] eqn:Hn; [lia|].
  replace (S n - 1)%nat with n in * by lia.
  replace max_retries with (Z.of_nat (S n)) by lia.
  apply retry_loop_all_fail; [lia | exact Hfail | exact Hlast].
Qed.

Lemma retry_with_backoff_success f qid name (max_retries : Z) (base_delay : Q)
    (k : nat) (w : world) (resp : response) :
  (k < Z.to_nat max_retries)%nat ->
  (forall j, (j < k)%nat -> exists e, f (calls w + j)%nat qid name = inl e) ->
  f (calls w + k)%nat qid name = inr resp ->
  exists msgs,
    _retry_with_backoff (remote f qid name) max_retries base_delay w =
      (inr resp,
       mkWorld (db w) (trace w ++ failed_attempts base_delay 0 k ++ [EvCall])
               (ticks w) (stdout w ++ msgs) (files w)).
Proof.
  intros Hk Hfail Hok. unfold _retry_with_backoff.
  pose proof (retry_loop_success f qid name base_delay (Z.to_nat max_retries)
                (Z.to_nat max_retries) 0 k w resp eq_refl Hk Hfail Hok) as Hrun.
  rewrite Z2Nat.id in Hrun by lia. exact Hrun.
Qed.

(** Whatever the service answers, retrying touches neither the table, nor
    the clock, nor the files. *)
Lemma retry_loop_frame f qid name (N : Z) (base_delay : Q) (attempts : list nat) (w : world) :
  let out := retry_loop (remote f qid name) N base_delay attempts w in
  db (snd out) = db w /\ ticks (snd out) = ticks w /\ files (snd out) = files w.
Proof.
  cbv zeta. revert w. induction attempts as [|a rest IH]; intros w; [repeat split|].
  cbn [retry_loop]. unfold try_except, remote.
  destruct (f (calls w) qid name) as [e|resp]; [|repeat split].
  destruct (Z.of_nat a =? N - 1)%Z; [repeat split|].
  unfold bind, print, sleep. cbn [db trace ticks stdout files].
  match goal with |- context [retry_loop _ _ _ rest ?w1] => specialize (IH w1) end.
  exact IH.
Qed.

(** ** [fetch_query] *)

Section FetchQuery.

Variable E : env.

Lemma fetch_query_retry_eq (wait : bool) (qid : Z) (name : string) :
  (if wait
   then _retry_with_backoff (remote (run_query E) qid name) 3 1%Q
   else _retry_with_backoff (remote (get_latest_result E) qid name) 3 1%Q) =
  _retry_with_backoff (remote (fetch_service E wait) qid name) 3 1%Q.
Proof. destruct wait; reflexivity. Qed.

Lemma fetch_query_unknown (name : string) (wait : bool) (w : world) :
  catalog_get (catalog E) name = None ->
  fetch_query E name wait w =
    (inr None,
     mkWorld (db w) (trace w) (ticks w)
             (stdout w ++ [MsgUnknownQuery name; MsgAvailableQueries (map fst (catalog E))])
             (files w)).
Proof.
  intros Hcat. unfold fetch_query. rewrite Hcat.
  unfold bind, print, ret. cbn [db trace ticks stdout files].
  rewrite <- app_assoc. reflexivity.
Qed.

(** The three attempts all fail. *)
Lemma fetch_query_exhausted (name : string) (wait : bool) (qid : Z) (w : world) :
  catalog_get (catalog E) name = Some qid ->
  (forall j, (j < 3)%nat -> exists e, fetch_service E wait (calls w + j)%nat qid name = inl e) ->
  exists msgs,
    fetch_query E name wait w =
      (inr None,
       mkWorld (db w) (trace w ++ failed_attempts 1%Q 0 2 ++ [EvCall])
               (ticks w) (stdout w ++ msgs) (files w)).
Proof.
  intros Hcat Hfail. unfold fetch_query. rewrite Hcat, fetch_query_retry_eq.
  unfold bind at 1, print at 1.
  set (w1 := mkWorld (db w) (trace w) (ticks w) (stdout w ++ [MsgFetching name qid]) (files w)).
  destruct (Hfail 2%nat ltac:(lia)) as [last Hlast].
  destruct (retry_with_backoff_all_fail (fetch_service E wait) qid name 3 1%Q w1 last)
    as [msgs Hrun].
  - lia.
  - intros j Hj. apply Hfail. simpl in Hj. lia.
  - exact Hlast.
  - exists ([MsgFetching name qid] ++ msgs ++ [MsgFetchError last]).
    change (Z.to_nat 3 - 1)%nat with 2%nat in Hrun.
    unfold try_except. unfold bind at 1. rewrite Hrun.
    unfold bind, print, ret, w1. cbn [db trace ticks stdout files].
    rewrite <- !app_assoc. reflexivity.
Qed.

(** The first answer of the service carries no result. *)
Lemma fetch_query_absent (name : string) (wait : bool) (qid : Z) (k : nat)
    (resp : response) (w : world) :
  catalog_get (catalog E) name = Some qid ->
  (k < 3)%nat ->
  (forall j, (j < k)%nat -> exists e, fetch_service E wait (calls w + j)%nat qid name = inl e) ->
  fetch_service E wait (calls w + k)%nat qid name = inr resp ->
  resp = NoResponse \/ resp = NoResult ->
  exists msgs,
    fetch_query E name wait w =
      (inr None,
       mkWorld (db w) (trace w ++ failed_attempts 1%Q 0 k ++ [EvCall])
               (ticks w) (stdout w ++ msgs) (files w)).
Proof.
  intros Hcat Hk Hfail Hok Hresp. unfold fetch_query. rewrite Hcat, fetch_query_retry_eq.
  unfold bind at 1, print at 1.
  set (w1 := mkWorld (db w) (trace w) (ticks w) (stdout w ++ [MsgFetching name qid]) (files w)).
  destruct (retry_with_backoff_success (fetch_service E wait) qid name 3 1%Q k w1 resp)
    as [msgs Hrun]; [simpl; lia | exact Hfail | exact Hok |].
  exists ([MsgFetching name qid] ++ msgs ++ [MsgNoResults qid]).
  unfold try_except. unfold bind at 1. rewrite Hrun.
  destruct Hresp as [-> | ->]; unfold bind, print, ret, w1; cbn [db trace ticks stdout files];
    rewrite <- !app_assoc; reflexivity.
Qed.

(** The first answer of the service carries a result. *)
Lemma fetch_query_rows (name : string) (wait : bool) (qid : Z) (k : nat)
    (rows : option (list row)) (w : world) :
  catalog_get (catalog E) name = Some qid ->
  (k < 3)%nat ->
  (forall j, (j < k)%nat -> exists e, fetch_service E wait (calls w + j)%nat qid name = inl e) ->
  fetch_service E wait (calls w + k)%nat qid name = inr (Rows rows) ->
  let qr := mkQueryResult (next_rowid (db w)) name qid (stored_data E rows)
                          (isoformat E (datetime_now E (ticks w))) (stored_count rows) in
  exists msgs,
    fetch_query E name wait w =
      (inr (Some qr),
       mkWorld (db w ++ [qr]) (trace w ++ failed_attempts 1%Q 0 k ++ [EvCall])
               (S (ticks w)) (stdout w ++ msgs) (files w)).
Proof.
  intros Hcat Hk Hfail Hok qr. unfold fetch_query. rewrite Hcat, fetch_query_retry_eq.
  unfold bind at 1, print at 1.
  set (w1 := mkWorld (db w) (trace w) (ticks w) (stdout w ++ [MsgFetching name qid]) (files w)).
  destruct (retry_with_backoff_success (fetch_service E wait) qid name 3 1%Q k w1 (Rows rows))
    as [msgs Hrun]; [simpl; lia | exact Hfail | exact Hok |].
  exists ([MsgFetching name qid] ++ msgs ++ [MsgFetched (stored_count rows)]).
  unfold try_except. unfold bind at 1. rewrite Hrun.
  unfold bind, print, ret, now, sql_insert, w1. cbn [db trace ticks stdout files].
  rewrite <- !app_assoc. reflexivity.
Qed.

(** [fetch_query] returns normally, and either leaves the table alone or
    appends the row it returns. *)
Lemma fetch_query_total (name : string) (wait : bool) (w : world) :
  exists r w',
    fetch_query E name wait w = (inr r, w') /\
    files w' = files w /\
    match r with
    | None => db w' = db w
    | Some qr => db w' = db w ++ [qr] /\ logical_name qr = name
    end.
Proof.
  unfold fetch_query. destruct (catalog_get (catalog E) name) as [qid|].
  - rewrite fetch_query_retry_eq. unfold bind at 1, print at 1.
    set (w1 := mkWorld (db w) (trace w) (ticks w) (stdout w ++ [MsgFetching name qid]) (files w)).
    unfold try_except. unfold bind at 1. unfold _retry_with_backoff.
    pose proof (retry_loop_frame (fetch_service E wait) qid name 3 1%Q
                  (seq 0 (Z.to_nat 3)) w1) as Hframe.
    destruct (retry_loop (remote (fetch_service E wait) qid name) 3 1%Q
                (seq 0 (Z.to_nat 3)) w1) as [[e|resp] w2].
    + cbn [snd] in Hframe. destruct Hframe as (Hdb & _ & Hfiles).
      eexists None, _. unfold bind, print, ret. cbn [db files]. repeat split; assumption.
    + cbn [snd] in Hframe. destruct Hframe as (Hdb & _ & Hfiles).
      destruct resp as [| |rows]; unfold bind, print, ret, now, sql_insert;
        cbn [db trace ticks stdout files].
      * eexists None, _. cbn [db files]. repeat split; assumption.
      * eexists None, _. cbn [db files]. repeat split; assumption.
      * eexists (Some _), _. split; [reflexivity|]. cbn [db files logical_name].
        rewrite Hdb. repeat split; assumption.
  - eexists None, _. unfold bind, print, ret. cbn [db files]. repeat split; reflexivity.
Qed.

End FetchQuery.

(** ** Which operations write to the table *)

Lemma keeps_db_ret {A} (a : A) : keeps_db (ret a).
Proof. intros w. reflexivity. Qed.

Lemma keeps_db_raise {A} (e : exn) : keeps_db (@raise A e).
Proof. intros w. reflexivity. Qed.

Lemma keeps_db_print (m : message) : keeps_db (print m).
Proof. intros w. reflexivity. Qed.

Lemma keeps_db_sleep (d : Q) : keeps_db (sleep d).
Proof. intros w. reflexivity. Qed.

Lemma keeps_db_write_file (p : string) (a : artifact) : keeps_db (write_file p a).
Proof. intros w. reflexivity. Qed.

Lemma keeps_db_now (E : env) : keeps_db (now E).
Proof. intros w. reflexivity. Qed.

Lemma keeps_db_select (name : string) : keeps_db (sql_select_latest name).
Proof. intros w. reflexivity. Qed.

Lemma keeps_db_bind {A B} (m : M A) (k : A -> M B) :
  keeps_db m -> (forall a, keeps_db (k a)) -> keeps_db (bind m k).
Proof.
  intros Hm Hk w. unfold bind. specialize (Hm w).
  destruct (m w) as [[e|a] w1]; cbn [snd] in *; [exact Hm|].
  rewrite (Hk a w1). exact Hm.
Qed.

Lemma keeps_db_try {A} (m : M A) (h : exn -> M A) :
  keeps_db m -> (forall e, keeps_db (h e)) -> keeps_db (try_except m h).
Proof.
  intros Hm Hh w. unfold try_except. specialize (Hm w).
  destruct (m w) as [[e|a] w1]; cbn [snd] in *; [|exact Hm].
  rewrite (Hh e w1). exact Hm.
Qed.



Create HintDb pipeline.

#[local] Hint Resolve keeps_db_ret keeps_db_raise keeps_db_print keeps_db_sleep
  keeps_db_write_file keeps_db_now keeps_db_select : pipeline.

(** Peel binds, handlers and case distinctions off a [keeps_db] goal. *)
Ltac keeps_db_step :=
  first
    [ apply keeps_db_bind; [|intros ?]
    | apply keeps_db_try; [|intros ?]
    | solve [auto with pipeline]
    | match goal with
      | |- keeps_db (match ?x with _ => _ end) => destruct x
      end ].

Lemma keeps_db_get_query (E : env) (name : string) (limit offset : Z) :
  keeps_db (get_query E name limit offset).
Proof. unfold get_query. repeat keeps_db_step. Qed.

Lemma keeps_db_tail (E : env) (name : string) (n : Z) : keeps_db (tail E name n).
Proof. unfold tail. repeat keeps_db_step. Qed.

Lemma keeps_db_list_queries_loop (items : list (string * Z)) (acc : list query_info) :
  keeps_db (list_queries_loop items acc).
Proof.
  revert acc. induction items as [|[name qid] rest IH]; intros acc; cbn [list_queries_loop].
  - auto with pipeline.
  - apply keeps_db_bind; [auto with pipeline|]. intros r. apply IH.
Qed.

Lemma keeps_db_enrich_rows (E : env) (name : string) (qid : Z) (ts : string)
    (rows all_data : list row) :
  keeps_db (enrich_rows E name qid ts rows all_data).
Proof.
  revert all_data. induction rows as [|r rest IH]; intros all_data; cbn [enrich_rows].
  - auto with pipeline.
  - apply keeps_db_bind; [auto with pipeline|]. intros t. apply IH.
Qed.

Lemma keeps_db_export_loop (E : env) (items : list (string * Z)) (all_data : list row)
    (summary : export_summary) :
  keeps_db (export_loop E items all_data summary).
Proof.
  revert all_data summary.
  induction items as [|[name qid] rest IH]; intros all_data summary; cbn [export_loop].
  - auto with pipeline.
  - apply keeps_db_bind; [auto with pipeline|]. intros [e|].
    + destruct (json_loads E (data e)) as [[|r rows]|].
      * apply keeps_db_bind; [auto with pipeline|]. intros _. apply IH.
      * apply keeps_db_bind; [apply keeps_db_enrich_rows|]. intros all_data'.
        apply keeps_db_bind; [auto with pipeline|]. intros _. apply IH.
      * apply keeps_db_bind; [auto with pipeline|]. intros _. apply IH.
    + apply keeps_db_bind; [auto with pipeline|]. intros _. apply IH.
Qed.

Lemma keeps_db_export_for_artemis (E : env) (output_dir format : string) :
  keeps_db (export_for_artemis E output_dir format).
Proof.
  unfold export_for_artemis. destruct (negb (HAS_PANDAS E)); [auto with pipeline|].
  apply keeps_db_bind; [auto with pipeline|]. intros t0.
  apply keeps_db_bind; [auto with pipeline|]. intros _.
  apply keeps_db_bind; [apply keeps_db_export_loop|]. intros [all_data summary].
  cbn [fst snd]. destruct all_data as [|r all_data]; repeat keeps_db_step.
Qed.





(** ** The export loop *)

Section ExportLoop.

Variable E : env.

Lemma kept_entries_skipped (tbl : list QueryResult) (item : string * Z)
    (rest : list (string * Z)) :
  is_skipped E tbl (fst item) = true ->
  kept_entries E tbl (item :: rest) = kept_entries E tbl rest.
Proof. intros H. unfold kept_entries. cbn [List.filter]. rewrite H. reflexivity. Qed.

Lemma kept_entries_kept (tbl : list QueryResult) (item : string * Z)
    (rest : list (string * Z)) :
  is_skipped E tbl (fst item) = false ->
  kept_entries E tbl (item :: rest) = item :: kept_entries E tbl rest.
Proof. intros H. unfold kept_entries. cbn [List.filter]. rewrite H. reflexivity. Qed.

Lemma source_rows_skipped (tbl : list QueryResult) (item : string * Z)
    (rest : list (string * Z)) :
  is_skipped E tbl (fst item) = true ->
  source_rows E tbl (item :: rest) = source_rows E tbl rest.
Proof. intros H. unfold source_rows. rewrite kept_entries_skipped by exact H. reflexivity. Qed.

Lemma source_rows_kept (tbl : list QueryResult) (item : string * Z)
    (rest : list (string * Z)) :
  is_skipped E tbl (fst item) = false ->
  source_rows E tbl (item :: rest) =
    map (fun src => (src, item)) (latest_rows E tbl (fst item)) ++ source_rows E tbl rest.
Proof. intros H. unfold source_rows. rewrite kept_entries_kept by exact H. reflexivity. Qed.

Lemma record_of_latest (tbl : list QueryResult) (name : string) (qid : Z) (e : QueryResult) :
  select_latest name tbl = Some e ->
  record_of tbl (name, qid) = mkExportRecord name qid (row_count e) (timestamp e).
Proof.
  intros H. unfold record_of, latest_row_count, latest_timestamp. cbn [fst snd].
  rewrite H. reflexivity.
Qed.

Lemma enrich_rows_spec (name : string) (qid : Z) (ts : string)
    (rows all_data : list row) (w : world) :
  exists seg,
    enrich_rows E name qid ts rows all_data w =
      (inr (all_data ++ seg),
       mkWorld (db w) (trace w) (ticks w + length rows) (stdout w) (files w)) /\
    Forall2 (fun r src => exists t, r = enrich src name qid ts t) seg rows.
Proof.
  revert all_data w. induction rows as [|src rest IH]; intros all_data w.
  - exists []. split; [|constructor]. cbn [enrich_rows]. unfold ret.
    rewrite app_nil_r. destruct w. cbn. rewrite Nat.add_0_r. reflexivity.
  - cbn [enrich_rows]. unfold bind, now.
    match goal with
    | |- context [enrich_rows _ _ _ _ rest ?acc ?w1] =>
        destruct (IH acc w1) as (seg & Hrun & Hseg)
    end.
    rewrite Hrun. cbn [db trace ticks stdout files].
    eexists (_ :: seg). split.
    + rewrite <- app_assoc. cbn [length].
      replace (ticks w + S (length rest))%nat with (S (ticks w) + length rest)%nat by lia.
      reflexivity.
    + constructor; [eexists; reflexivity | exact Hseg].
Qed.

Lemma export_loop_spec (items : list (string * Z)) (all_data : list row)
    (summary : export_summary) (w : world) :
  exists seg msgs n,
    export_loop E items all_data summary w =
      (inr (all_data ++ seg,
            mkExportSummary (summary_timestamp summary)
              (queries_exported summary ++
                 map (record_of (db w)) (kept_entries E (db w) items))
              (total_rows summary +
                 sum_Z (map exp_row_count
                            (map (record_of (db w)) (kept_entries E (db w) items))))
              (files_created summary)),
       mkWorld (db w) (trace w) (ticks w + n) (stdout w ++ msgs) (files w)) /\
    Forall2 (enriched_from E (db w)) seg (source_rows E (db w) items) /\
    (forall item m, item ∈ items ->
       skip_warning E (db w) (fst item) = Some m -> m ∈ msgs).
Proof.
  revert all_data summary w.
  induction items as [|[name qid] rest IH]; intros all_data summary w.
  - exists [], [], 0%nat. split; [|split].
    + cbn [export_loop]. unfold ret. destruct summary, w. cbn.
      rewrite !app_nil_r, Z.add_0_r, Nat.add_0_r. reflexivity.
    + constructor.
    + intros item m Hin. inversion Hin.
  - cbn [export_loop]. unfold bind at 1, sql_select_latest at 1.
    destruct (select_latest name (db w)) as [e|] eqn:Hsel.
    + destruct (json_loads E (data e)) as [[|r rows]|] eqn:Hj.
      * assert (Hskip : is_skipped E (db w) (fst (name, qid)) = true).
        { unfold is_skipped. cbn [fst]. rewrite Hsel, Hj. reflexivity. }
        unfold bind at 1, print at 1.
        match goal with
        | |- context [export_loop _ rest all_data summary ?w1] =>
            destruct (IH all_data summary w1) as (seg & msgs & n & Hrun & Hseg & Hwarn)
        end.
        cbn [db trace ticks stdout files] in *.
        exists seg, (WarnSkipEmpty name :: msgs), n. split; [|split].
        -- rewrite Hrun, kept_entries_skipped by exact Hskip.
           rewrite <- app_assoc. reflexivity.
        -- rewrite source_rows_skipped by exact Hskip. exact Hseg.
        -- intros item m Hin Hm. apply elem_of_cons in Hin as [->|Hin].
           ++ unfold skip_warning in Hm. cbn [fst] in Hm. rewrite Hsel, Hj in Hm.
              injection Hm as <-. left.
           ++ right. eapply Hwarn; eassumption.
      * assert (Hkeep : is_skipped E (db w) (fst (name, qid)) = false).
        { unfold is_skipped. cbn [fst]. rewrite Hsel, Hj. reflexivity. }
        unfold bind at 1.
        destruct (enrich_rows_spec name qid (timestamp e) (r :: rows) all_data w)
          as (seg1 & Hrun1 & Hseg1).
        rewrite Hrun1. unfold bind at 1, print at 1.
        match goal with
        | |- context [export_loop _ rest ?acc ?s1 ?w1] =>
            destruct (IH acc s1 w1) as (seg & msgs & n & Hrun & Hseg & Hwarn)
        end.
        cbn [db trace ticks stdout files] in *.
        exists (seg1 ++ seg), (MsgExported name (row_count e) :: msgs),
               (length (r :: rows) + n)%nat.
        split; [|split].
        -- rewrite Hrun, kept_entries_kept by exact Hkeep.
           unfold add_query. cbn [summary_timestamp queries_exported total_rows files_created].
           cbn [map]. rewrite (record_of_latest (db w) name qid e Hsel).
           unfold sum_Z. cbn [foldr exp_row_count].
           rewrite <- !app_assoc. cbn [app].
           rewrite Z.add_assoc, Nat.add_assoc. reflexivity.
        -- rewrite source_rows_kept by exact Hkeep. apply Forall2_app; [|exact Hseg].
           unfold latest_rows. cbn [fst]. rewrite Hsel, Hj. cbn [default].
           apply Forall2_fmap_r. eapply Forall2_impl; [exact Hseg1|].
           intros r' src [t Ht]. exists t. cbn [fst snd].
           unfold latest_timestamp. rewrite Hsel. exact Ht.
        -- intros item m Hin Hm. apply elem_of_cons in Hin as [->|Hin].
           ++ unfold skip_warning in Hm. cbn [fst] in Hm. rewrite Hsel, Hj in Hm.
              discriminate.
           ++ right. eapply Hwarn; eassumption.
      * assert (Hskip : is_skipped E (db w) (fst (name, qid)) = true).
        { unfold is_skipped. cbn [fst]. rewrite Hsel, Hj. reflexivity. }
        unfold bind at 1, print at 1.
        match goal with
        | |- context [export_loop _ rest all_data summary ?w1] =>
            destruct (IH all_data summary w1) as (seg & msgs & n & Hrun & Hseg & Hwarn)
        end.
        cbn [db trace ticks stdout files] in *.
        exists seg, (WarnSkipInvalidJSON name :: msgs), n. split; [|split].
        -- rewrite Hrun, kept_entries_skipped by exact Hskip.
           rewrite <- app_assoc. reflexivity.
        -- rewrite source_rows_skipped by exact Hskip. exact Hseg.
        -- intros item m Hin Hm. apply elem_of_cons in Hin as [->|Hin].
           ++ unfold skip_warning in Hm. cbn [fst] in Hm. rewrite Hsel, Hj in Hm.
              injection Hm as <-. left.
           ++ right. eapply Hwarn; eassumption.
    + assert (Hskip : is_skipped E (db w) (fst (name, qid)) = true).
      { unfold is_skipped. cbn [fst]. rewrite Hsel. reflexivity. }
      unfold bind at 1, print at 1.
      match goal with
      | |- context [export_loop _ rest all_data summary ?w1] =>
          destruct (IH all_data summary w1) as (seg & msgs & n & Hrun & Hseg & Hwarn)
      end.
      cbn [db trace ticks stdout files] in *.
      exists seg, (WarnSkipNoData name :: msgs), n. split; [|split].
      -- rewrite Hrun, kept_entries_skipped by exact Hskip.
         rewrite <- app_assoc. reflexivity.
      -- rewrite source_rows_skipped by exact Hskip. exact Hseg.
      -- intros item m Hin Hm. apply elem_of_cons in Hin as [->|Hin].
         ++ unfold skip_warning in Hm. cbn [fst] in Hm. rewrite Hsel in Hm.
            injection Hm as <-. left.
         ++ right. eapply Hwarn; eassumption.
Qed.


End ExportLoop.

(** ** The catalog *)

Lemma catalog_get_None_iff (catalog : list (string * Z)) (name : string) :
  catalog_get catalog name = None <-> name ∉ map fst catalog.
Proof.
  induction catalog as [|[k v] rest IH]; cbn [catalog_get map fst].
  - split; [intros _ H; inversion H | reflexivity].
  - destruct (String.eqb_spec k name) as [->|Hne].
    + split; [discriminate|]. intros H. exfalso. apply H. left.
    + rewrite IH. rewrite not_elem_of_cons. split; [intros H; split; congruence | intros [_ H]; exact H].
Qed.

(** ** Enrichment *)




Lemma enrich_exported_at (src : row) (name : string) (qid : Z) (fetched exported : string) :
  enrich src name qid fetched exported !! "_exported_at" = Some (VStr exported).
Proof. unfold enrich. apply lookup_insert_eq. Qed.








(** ** Python slices from the end *)

Lemma py_slice_from_zero {A} (l : list A) : py_slice_from l (- 0) = l.
Proof.
  unfold py_slice_from, slice_bound. cbn [Z.opp Z.ltb Z.compare].
  rewrite Z.min_l by lia. reflexivity.
Qed.

Lemma py_slice_from_last {A} (l : list A) (n : Z) :
  0 < n < Z.of_nat (length l) ->
  py_slice_from l (- n) = drop (length l - Z.to_nat n) l.
Proof.
  intros Hn. unfold py_slice_from, slice_bound.
  replace (- n <? 0)%Z with true by (symmetry; apply Z.ltb_lt; lia).
  f_equal. lia.
Qed.

(** ** The scheduled run *)

Section Scheduler.

Variable E : env.





End Scheduler.

(** ** The model at work *)

(** Three failing attempts: a call, a sleep of 1, a call, a sleep of 2, a
    call. *)
Example retry_trace_when_down :
  trace (snd (fetch_query (Fixtures.test_env Fixtures.always_down true)
                          "num transactions" true Fixtures.empty_world)) =
    [EvCall; EvSleep (backoff_delay 1%Q 0); EvCall; EvSleep (backoff_delay 1%Q 1); EvCall].
Proof. vm_compute. reflexivity. Qed.

(** [tail(name, 0)] on a non-empty result is [d[-0:]], all the rows. *)
Example tail_zero_returns_all :
  fst (tail (Fixtures.test_env Fixtures.one_row true) "num transactions" 0
            (Fixtures.with_db [Fixtures.x1_entry])) = inr (Some [Fixtures.row_x1]).
Proof. vm_compute. reflexivity. Qed.

(** [get(name, limit, offset)] past the end is the empty slice. *)
Example get_query_past_the_end :
  fst (get_query (Fixtures.test_env Fixtures.one_row true) "num transactions" 100 5
                 (Fixtures.with_db [Fixtures.x1_entry])) = inr (Some []).
Proof. vm_compute. reflexivity. Qed.

(** One cached name out of nine: one record, [total_rows = 1], three files. *)
Example export_one_cached_name :
  let out := export_for_artemis (Fixtures.test_env Fixtures.one_row true) "out" "both"
                                (Fixtures.with_db [Fixtures.x1_entry]) in
  match fst out with
  | inr summary =>
      queries_exported summary =
        [mkExportRecord "num transactions" 6084845 1 "2026-11-04T08:59:59"] /\
      total_rows summary = 1
  | inl _ => False
  end /\
  length (files (snd out)) = 3%nat.
Proof. vm_compute. repeat split. Qed.

(** Without the export libraries the export raises and the run fails. *)
Example run_fails_without_pandas :
  fst (run_daily_update (Fixtures.test_env Fixtures.one_row false) None "out" "both"
                        Fixtures.empty_world) = inr false.
Proof. vm_compute. reflexivity. Qed.

(** * The claims *)





(** C2, as stated, fails on ties: of two cached results of one name with
    the same timestamp, the lookup returns the one inserted first. *)
Lemma C2_tie_counterexample :
  logical_name Fixtures.tie_first = "num transactions" /\
  logical_name Fixtures.tie_second = "num transactions" /\
  timestamp Fixtures.tie_first = timestamp Fixtures.tie_second /\
  Fixtures.tie_first <> Fixtures.tie_second /\
  select_latest "num transactions" [Fixtures.tie_first; Fixtures.tie_second]
    = Some Fixtures.tie_first.
Proof.
  repeat split; try reflexivity. intros H. discriminate H.
Qed.

(** C2 (amended): for every logical name with at least one cached entry,
    the latest-result lookup returns an entry of that name whose timestamp
    is the maximum over the entries of the name; when several entries share
    the maximum timestamp, the one inserted first is returned (every entry
    of the name inserted before the returned one is strictly older). *)
Theorem C2_latest_has_max_timestamp (name : string) (tbl : list QueryResult) :
  (exists e0, e0 ∈ tbl /\ logical_name e0 = name) ->
  exists e before after,
    select_latest name tbl = Some e /\
    tbl = before ++ e :: after /\
    logical_name e = name /\
    (forall e', e' ∈ tbl -> logical_name e' = name ->
       String.leb (timestamp e') (timestamp e) = true) /\
    (forall e', e' ∈ before -> logical_name e' = name ->
       String.ltb (timestamp e') (timestamp e) = true).
Proof.
  intros Hex. destruct (select_latest_is_Some name tbl Hex) as [e He].
  destruct (select_latest_spec name tbl e He) as (l1 & l2 & Htbl & Hn & Hl1 & Hl2).
  exists e, l1, l2. repeat split; try assumption.
  intros e' Hin Hn'. rewrite Htbl in Hin.
  apply elem_of_app in Hin as [Hin|Hin].
  - apply string_ltb_leb. auto.
  - apply elem_of_cons in Hin as [->|Hin]; [apply string_leb_refl | auto].
Qed.

Lemma C2_latest_has_max_timestamp_witness :
  exists e before after,
    select_latest "num transactions" [Fixtures.x1_entry; Fixtures.tie_second] = Some e /\
    [Fixtures.x1_entry; Fixtures.tie_second] = before ++ e :: after /\
    logical_name e = "num transactions" /\
    (forall e', e' ∈ [Fixtures.x1_entry; Fixtures.tie_second] ->
       logical_name e' = "num transactions" ->
       String.leb (timestamp e') (timestamp e) = true) /\
    (forall e', e' ∈ before -> logical_name e' = "num transactions" ->
       String.ltb (timestamp e') (timestamp e) = true).
Proof.
  apply (C2_latest_has_max_timestamp "num transactions"
           [Fixtures.x1_entry; Fixtures.tie_second]).
  exists Fixtures.x1_entry. split; [left | reflexivity].
Defined.






(** C6: for a logical name that is not in the query catalog, [fetch_query]
    returns [None] after printing the error; it makes no remote call and no
    retry sleep (the trace is unchanged) and appends nothing to the cache. *)
Theorem C6_unknown_name_not_found (E : env) (name : string) (wait : bool) (w : world) :
  name ∉ map fst (catalog E) ->
  exists w',
    fetch_query E name wait w = (inr None, w') /\
    db w' = db w /\
    trace w' = trace w /\
    calls w' = calls w /\
    stdout w' = stdout w ++ [MsgUnknownQuery name;
                             MsgAvailableQueries (map fst (catalog E))].
Proof.
  intros Hnot. apply catalog_get_None_iff in Hnot.
  eexists. split; [apply fetch_query_unknown; exact Hnot|].
  repeat split.
Qed.

Lemma C6_unknown_name_not_found_witness :
  let E := Fixtures.test_env Fixtures.one_row true in
  let w := Fixtures.with_db [Fixtures.x1_entry] in
  exists w',
    fetch_query E "Z" true w = (inr None, w') /\
    db w' = db w /\
    trace w' = trace w /\
    calls w' = calls w /\
    stdout w' = stdout w ++ [MsgUnknownQuery "Z"; MsgAvailableQueries (map fst (catalog E))].
Proof.
  cbv zeta.
  apply (C6_unknown_name_not_found (Fixtures.test_env Fixtures.one_row true) "Z" true
           (Fixtures.with_db [Fixtures.x1_entry])).
  apply catalog_get_None_iff. reflexivity.
Defined.

(** C10: [fetch_query] never raises to its caller; an unknown logical name,
    a remote failure that survives the three attempts, and a response
    without a result each make it return [None] with no row appended, so the
    returned value does not tell the three apart. *)
Theorem C10_fetch_query_failures_return_None (E : env) (name : string) (wait : bool)
    (w : world) :
  (exists r w', fetch_query E name wait w = (inr r, w')) /\
  (forall m, in_failure_mode E name wait w m ->
     exists w', fetch_query E name wait w = (inr None, w') /\ db w' = db w).
Proof.
  split.
  - destruct (fetch_query_total E name wait w) as (r & w' & Hrun & _). eauto.
  - intros [| |] Hmode; cbn [in_failure_mode] in Hmode.
    + eexists. split; [apply fetch_query_unknown; exact Hmode | reflexivity].
    + destruct Hmode as (qid & Hcat & Hfail).
      destruct (fetch_query_exhausted E name wait qid w Hcat Hfail) as [msgs Hrun].
      eexists. split; [exact Hrun | reflexivity].
    + destruct Hmode as (qid & k & resp & Hcat & Hk & Hfail & Hok & Hresp).
      destruct (fetch_query_absent E name wait qid k resp w Hcat Hk Hfail Hok Hresp)
        as [msgs Hrun].
      eexists. split; [exact Hrun | reflexivity].
Qed.

Lemma C10_fetch_query_failures_return_None_witness :
  let E := Fixtures.test_env Fixtures.always_down true in
  let w := Fixtures.with_db [Fixtures.x1_entry] in
  exists w', fetch_query E "num transactions" true w = (inr None, w') /\ db w' = db w.
Proof.
  cbv zeta.
  apply (proj2 (C10_fetch_query_failures_return_None
                  (Fixtures.test_env Fixtures.always_down true) "num transactions" true
                  (Fixtures.with_db [Fixtures.x1_entry])) RetriesExhausted).
  exists 6084845. split; [reflexivity|]. intros j _. eexists. reflexivity.
Defined.



(** C7: for a known logical name whose latest cached entry decodes to [d],
    and for [n >= 0], [tail] returns [d[-n:]] when [len(d) > n] and [d]
    itself otherwise, and does not raise.  With Python's slice this is the
    last [n] rows when [0 < n < len(d)], and all of [d] when [n = 0] or
    [n >= len(d)]. *)
Theorem C7_tail_last_rows (E : env) (name : string) (n : Z) (w : world)
    (qid : Z) (e : QueryResult) (d : list row) :
  catalog_get (catalog E) name = Some qid ->
  select_latest name (db w) = Some e ->
  json_loads E (data e) = Some d ->
  0 <= n ->
  exists res w',
    tail E name n w = (inr (Some res), w') /\
    db w' = db w /\
    res = (if (Z.of_nat (length d) >? n)%Z then py_slice_from d (- n) else d) /\
    (Z.of_nat (length d) <= n -> res = d) /\
    (n = 0 -> res = d) /\
    (0 < n < Z.of_nat (length d) ->
       res = drop (length d - Z.to_nat n) d /\ length res = Z.to_nat n).
Proof.
  intros Hcat Hsel Hj Hn. unfold tail. rewrite Hcat.
  unfold bind at 1, sql_select_latest at 1. rewrite Hsel, Hj.
  unfold bind, print, ret. eexists _, _. split; [reflexivity|].
  cbn [db]. split; [reflexivity|]. split; [reflexivity|].
  destruct (Z.gtb_spec (Z.of_nat (length d)) n) as [Hgt|Hle].
  - split; [lia|]. split.
    + intros ->. apply py_slice_from_zero.
    + intros Hrange. rewrite py_slice_from_last by exact Hrange.
      split; [reflexivity|]. rewrite length_drop. lia.
  - split; [reflexivity|]. split; [reflexivity|]. lia.
Qed.

Lemma C7_tail_last_rows_witness :
  let E := Fixtures.test_env Fixtures.one_row true in
  let w := Fixtures.with_db [Fixtures.x1_entry] in
  let d := [Fixtures.row_x1] in
  exists res w',
    tail E "num transactions" 10 w = (inr (Some res), w') /\
    db w' = db w /\
    res = (if (Z.of_nat (length d) >? 10)%Z then py_slice_from d (- 10) else d) /\
    (Z.of_nat (length d) <= 10 -> res = d) /\
    (10 = 0 -> res = d) /\
    (0 < 10 < Z.of_nat (length d) ->
       res = drop (length d - Z.to_nat 10) d /\ length res = Z.to_nat 10).
Proof.
  cbv zeta.
  apply (C7_tail_last_rows (Fixtures.test_env Fixtures.one_row true) "num transactions" 10
           (Fixtures.with_db [Fixtures.x1_entry]) 6084845 Fixtures.x1_entry
           [Fixtures.row_x1]).
  - reflexivity.
  - reflexivity.
  - reflexivity.
  - lia.
Defined.





(** * Further properties of the code *)

(** ** [_retry_with_backoff] against an arbitrary service *)

(** Among the first [n] answers of a service either one is a success, or
    all are failures. *)
Lemma first_success_or_all_fail (g : nat -> exn + response) (n : nat) :
  (exists k resp, (k < n)%nat /\
     (forall j, (j < k)%nat -> exists e, g j = inl e) /\ g k = inr resp) \/
  (forall j, (j < n)%nat -> exists e, g j = inl e).
Proof.
  induction n as [|n IH].
  - right. intros j Hj. lia.
  - destruct IH as [(k & resp & Hk & Hfail & Hok)|Hall].
    + left. exists k, resp. repeat split; [lia | exact Hfail | exact Hok].
    + destruct (g n) as [e|resp] eqn:Hn.
      * right. intros j Hj. destruct (decide (j = n)) as [->|Hne]; [eauto|].
        apply Hall. lia.
      * left. exists n, resp. repeat split; [lia | exact Hall | exact Hn].
Qed.

(** The loop stops at some attempt [k] below [max_retries]: the attempts
    before it failed and were each followed by a backoff sleep, and what the
    caller gets is the outcome of attempt [k], value or exception. *)
Lemma retry_with_backoff_shape f qid name (max_retries : Z) (base_delay : Q) (w : world) :
  1 <= max_retries ->
  exists k msgs,
    (k < Z.to_nat max_retries)%nat /\
    _retry_with_backoff (remote f qid name) max_retries base_delay w =
      (f (calls w + k)%nat qid name,
       mkWorld (db w) (trace w ++ failed_attempts base_delay 0 k ++ [EvCall])
               (ticks w) (stdout w ++ msgs) (files w)) /\
    (forall j, (j < k)%nat -> exists e, f (calls w + j)%nat qid name = inl e) /\
    ((exists resp, f (calls w + k)%nat qid name = inr resp) \/
     k = (Z.to_nat max_retries - 1)%nat).
Proof.
  intros Hm.
  destruct (first_success_or_all_fail (fun j => f (calls w + j)%nat qid name)
              (Z.to_nat max_retries)) as [(k & resp & Hk & Hfail & Hok)|Hall].
  - destruct (retry_with_backoff_success f qid name max_retries base_delay k w resp
                Hk Hfail Hok) as [msgs Hrun].
    exists k, msgs. rewrite Hok. repeat split; [exact Hk | exact Hrun | exact Hfail | eauto].
  - destruct (Hall (Z.to_nat max_retries - 1)%nat ltac:(lia)) as [last Hlast].
    destruct (retry_with_backoff_all_fail f qid name max_retries base_delay w last Hm)
      as [msgs Hrun]; [intros j Hj; apply Hall; lia | exact Hlast |].
    exists (Z.to_nat max_retries - 1)%nat, msgs. rewrite Hlast.
    repeat split; [lia | exact Hrun | intros j Hj; apply Hall; lia | auto].
Qed.

Lemma retry_with_backoff_none f qid name (max_retries : Z) (base_delay : Q) (w : world) :
  max_retries <= 0 ->
  _retry_with_backoff (remote f qid name) max_retries base_delay w =
    (inl MaxRetriesExceeded, w).
Proof.
  intros Hm. unfold _retry_with_backoff.
  replace (Z.to_nat max_retries) with 0%nat by lia. reflexivity.
Qed.

Lemma calls_after_attempts (w : world) (base_delay : Q) (k : nat) (msgs : list message) :
  calls (mkWorld (db w) (trace w ++ failed_attempts base_delay 0 k ++ [EvCall])
                 (ticks w) (stdout w ++ msgs) (files w)) = (calls w + k + 1)%nat.
Proof.
  unfold calls. cbn [trace]. rewrite !List.filter_app, !length_app.
  rewrite calls_failed_attempts. cbn. lia.
Qed.

(** X1: whatever the remote service answers and whatever the arguments,
    [_retry_with_backoff] calls it at most [max_retries] times (not at all
    when [max_retries <= 0]), and touches neither the table, nor the clock,
    nor the files. *)
Theorem X1_retry_never_exceeds_max_retries
    (f : nat -> Z -> string -> exn + response) (qid : Z) (name : string)
    (max_retries : Z) (base_delay : Q) (w : world) :
  let w' := snd (_retry_with_backoff (remote f qid name) max_retries base_delay w) in
  (calls w <= calls w' <= calls w + Z.to_nat max_retries)%nat /\
  db w' = db w /\ ticks w' = ticks w /\ files w' = files w.
Proof.
  cbv zeta. destruct (Z_le_gt_dec max_retries 0) as [Hle|Hgt].
  - rewrite retry_with_backoff_none by exact Hle. cbn [snd]. repeat split; lia.
  - destruct (retry_with_backoff_shape f qid name max_retries base_delay w ltac:(lia))
      as (k & msgs & Hk & Hrun & _).
    rewrite Hrun. cbn [snd]. rewrite calls_after_attempts. cbn [db ticks files].
    repeat split; lia.
Qed.

Lemma total_sleep_app (a b : list event) :
  Qeq (total_sleep (a ++ b)) (total_sleep a + total_sleep b)%Q.
Proof.
  induction a as [|ev a IH]; cbn [app total_sleep foldr].
  - fold (total_sleep b). ring.
  - fold (total_sleep (a ++ b)). fold (total_sleep a). destruct ev; rewrite IH; ring.
Qed.

Lemma backoff_delay_succ (base_delay : Q) (i : nat) :
  Qeq (backoff_delay base_delay (S i)) (2 * backoff_delay base_delay i)%Q.
Proof.
  unfold backoff_delay. rewrite Nat2Z.inj_succ, Z.pow_succ_r by lia.
  rewrite inject_Z_mult. change (inject_Z 2) with 2%Q. ring.
Qed.

(** The backoff sleeps of attempts [i .. i+k-1] add up to
    [base_delay * (2^(i+k) - 2^i)]. *)
Lemma total_sleep_failed_attempts (base_delay : Q) (k i : nat) :
  Qeq (total_sleep (failed_attempts base_delay i k))
      (backoff_delay base_delay (i + k) - backoff_delay base_delay i)%Q.
Proof.
  unfold failed_attempts. revert i. induction k as [|k IH]; intros i.
  - replace (i + 0)%nat with i by lia. cbn. ring.
  - cbn [seq flat_map app total_sleep foldr].
    fold (total_sleep (flat_map (fun k0 => [EvCall; EvSleep (backoff_delay base_delay k0)])
                                (seq (S i) k))).
    rewrite IH. replace (i + S k)%nat with (S i + k)%nat by lia.
    rewrite (backoff_delay_succ base_delay i). ring.
Qed.

Lemma backoff_delay_mono (base_delay : Q) (i j : nat) :
  (0 <= base_delay)%Q -> (i <= j)%nat ->
  (backoff_delay base_delay i <= backoff_delay base_delay j)%Q.
Proof.
  intros Hb Hij. unfold backoff_delay.
  assert (H : (inject_Z (2 ^ Z.of_nat i) <= inject_Z (2 ^ Z.of_nat j))%Q).
  { rewrite <- Zle_Qle. apply Z.pow_le_mono_r; lia. }
  nra.
Qed.

(** X2: with a non-negative base delay and at least one attempt allowed,
    the time [_retry_with_backoff] sleeps is [base_delay * (2^k - 1)] where
    [k] is the number of failed attempts before it stops, hence at most
    [base_delay * (2^(max_retries - 1) - 1)] whatever the service does. *)
Theorem X2_retry_sleep_budget
    (f : nat -> Z -> string -> exn + response) (qid : Z) (name : string)
    (max_retries : Z) (base_delay : Q) (w : world) :
  1 <= max_retries ->
  (0 <= base_delay)%Q ->
  exists k seg,
    (k < Z.to_nat max_retries)%nat /\
    trace (snd (_retry_with_backoff (remote f qid name) max_retries base_delay w)) =
      trace w ++ seg /\
    Qeq (total_sleep seg) (base_delay * (inject_Z (2 ^ Z.of_nat k) - 1))%Q /\
    (total_sleep seg <= base_delay * (inject_Z (2 ^ (max_retries - 1)) - 1))%Q.
Proof.
  intros Hm Hb.
  destruct (retry_with_backoff_shape f qid name max_retries base_delay w Hm)
    as (k & msgs & Hk & Hrun & _).
  exists k, (failed_attempts base_delay 0 k ++ [EvCall]).
  split; [exact Hk|]. split; [rewrite Hrun; reflexivity|].
  assert (Hsum : Qeq (total_sleep (failed_attempts base_delay 0 k ++ [EvCall]))
                     (base_delay * (inject_Z (2 ^ Z.of_nat k) - 1))%Q).
  { rewrite total_sleep_app, total_sleep_failed_attempts.
    change (total_sleep [EvCall]) with 0%Q. change (0 + k)%nat with k.
    unfold backoff_delay. change (inject_Z (2 ^ Z.of_nat 0)) with 1%Q. ring. }
  split; [exact Hsum|]. rewrite Hsum.
  pose proof (backoff_delay_mono base_delay k (Z.to_nat max_retries - 1) Hb ltac:(lia)) as Hmono.
  unfold backoff_delay in Hmono.
  replace (Z.of_nat (Z.to_nat max_retries - 1)) with (max_retries - 1) in Hmono by lia.
  lra.
Qed.

Lemma X2_retry_sleep_budget_witness :
  exists k seg,
    (k < Z.to_nat 3)%nat /\
    trace (snd (_retry_with_backoff (remote Fixtures.always_down 6084845 "num transactions")
                                    3 1%Q Fixtures.empty_world)) =
      trace Fixtures.empty_world ++ seg /\
    Qeq (total_sleep seg) (1 * (inject_Z (2 ^ Z.of_nat k) - 1))%Q /\
    (total_sleep seg <= 1 * (inject_Z (2 ^ (3 - 1)) - 1))%Q.
Proof.
  apply (X2_retry_sleep_budget Fixtures.always_down 6084845 "num transactions" 3 1%Q
           Fixtures.empty_world).
  - lia.
  - vm_compute. discriminate.
Defined.



(** ** What [fetch_query] does to the world, in every case *)

Lemma fetch_query_shape (E : env) (name : string) (wait : bool) (w : world) :
  exists r w',
    fetch_query E name wait w = (inr r, w') /\
    files w' = files w /\
    (calls w <= calls w' <= calls w + 3)%nat /\
    (catalog_get (catalog E) name = None -> trace w' = trace w) /\
    match r with
    | None => db w' = db w /\ ticks w' = ticks w
    | Some qr =>
        db w' = db w ++ [qr] /\ ticks w' = S (ticks w) /\
        appended_by_fetch E (db w) qr /\
        logical_name qr = name /\
        timestamp qr = isoformat E (datetime_now E (ticks w))
    end.
Proof.
  destruct (catalog_get (catalog E) name) as [qid|] eqn:Hcat.
  - destruct (first_success_or_all_fail
                (fun j => fetch_service E wait (calls w + j)%nat qid name) 3)
      as [(k & resp & Hk & Hfail & Hok)|Hall].
    + destruct resp as [| |rows].
      * destruct (fetch_query_absent E name wait qid k NoResponse w Hcat Hk Hfail Hok)
          as [msgs Hrun]; [auto|].
        eexists None, _. split; [exact Hrun|]. rewrite calls_after_attempts.
        cbn [db ticks files]. repeat split; try lia. discriminate.
      * destruct (fetch_query_absent E name wait qid k NoResult w Hcat Hk Hfail Hok)
          as [msgs Hrun]; [auto|].
        eexists None, _. split; [exact Hrun|]. rewrite calls_after_attempts.
        cbn [db ticks files]. repeat split; try lia. discriminate.
      * destruct (fetch_query_rows E name wait qid k rows w Hcat Hk Hfail Hok)
          as [msgs Hrun].
        eexists (Some _), _. split; [exact Hrun|].
        unfold calls. cbn [db trace ticks files logical_name timestamp].
        rewrite !List.filter_app, !length_app, calls_failed_attempts. cbn [List.filter is_call length].
        repeat split; try lia; try discriminate.
        cbn [logical_name query_id data row_count].
        exists wait, (calls w + k)%nat, rows. repeat split; assumption.
    + destruct (fetch_query_exhausted E name wait qid w Hcat Hall) as [msgs Hrun].
      eexists None, _. split; [exact Hrun|]. rewrite calls_after_attempts.
      cbn [db ticks files]. repeat split; try lia. discriminate.
  - eexists None, _. split; [apply fetch_query_unknown; exact Hcat|].
    unfold calls. cbn [db trace ticks files]. repeat split; lia.
Qed.

(** ** Rows are only ever added by fetches *)

Lemma grown_by_fetches_trans (E : env) (a b c : list QueryResult) :
  grown_by_fetches E a b -> grown_by_fetches E b c -> grown_by_fetches E a c.
Proof.
  intros Hab Hbc. induction Hbc as [|c qr _ IH Hqr]; [exact Hab|].
  apply grown_append; assumption.
Qed.


Lemma grows_of_keeps {A} (E : env) (m : M A) : keeps_db m -> grows_by_fetches E m.
Proof. intros Hm w. rewrite (Hm w). constructor. Qed.

Lemma grows_bind {A B} (E : env) (m : M A) (k : A -> M B) :
  grows_by_fetches E m -> (forall a, grows_by_fetches E (k a)) ->
  grows_by_fetches E (bind m k).
Proof.
  intros Hm Hk w. unfold bind. specialize (Hm w).
  destruct (m w) as [[e|a] w1]; cbn [snd] in *; [exact Hm|].
  eapply grown_by_fetches_trans; [exact Hm | apply Hk].
Qed.

Lemma grows_try {A} (E : env) (m : M A) (h : exn -> M A) :
  grows_by_fetches E m -> (forall e, grows_by_fetches E (h e)) ->
  grows_by_fetches E (try_except m h).
Proof.
  intros Hm Hh w. unfold try_except. specialize (Hm w).
  destruct (m w) as [[e|a] w1]; cbn [snd] in *; [|exact Hm].
  eapply grown_by_fetches_trans; [exact Hm | apply Hh].
Qed.

Lemma grows_fetch_query (E : env) (name : string) (wait : bool) :
  grows_by_fetches E (fetch_query E name wait).
Proof.
  intros w. destruct (fetch_query_shape E name wait w) as (r & w' & Hrun & _ & _ & _ & Hr).
  rewrite Hrun. cbn [snd]. destruct r as [qr|].
  - destruct Hr as (-> & _ & Hqr & _). apply grown_append; [constructor | exact Hqr].
  - destruct Hr as [-> _]. constructor.
Qed.

Lemma grows_fetch_all_loop (E : env) (names : list string)
    (results : list (string * option QueryResult)) :
  grows_by_fetches E (fetch_all_loop E names results).
Proof.
  revert results. induction names as [|name rest IH]; intros results; cbn [fetch_all_loop].
  - apply grows_of_keeps, keeps_db_ret.
  - apply grows_bind; [apply grows_fetch_query|]. intros r.
    apply grows_bind; [apply grows_of_keeps, keeps_db_sleep|]. intros _. apply IH.
Qed.

Lemma grows_fetch_all (E : env) : grows_by_fetches E (fetch_all E).
Proof.
  unfold fetch_all.
  apply grows_bind; [apply grows_of_keeps, keeps_db_print|]. intros _.
  apply grows_bind; [apply grows_fetch_all_loop|]. intros results.
  apply grows_bind; [apply grows_of_keeps, keeps_db_print|]. intros _.
  apply grows_of_keeps, keeps_db_ret.
Qed.

Lemma grows_run_command (E : env) (c : command) : grows_by_fetches E (run_command E c).
Proof.
  destruct c; cbn [run_command];
    (apply grows_bind; [|intros _; apply grows_of_keeps, keeps_db_ret]).
  - apply grows_fetch_query.
  - apply grows_fetch_all.
  - apply grows_of_keeps, keeps_db_get_query.
  - apply grows_of_keeps, keeps_db_tail.
  - apply grows_of_keeps, keeps_db_list_queries_loop.
  - apply grows_of_keeps, keeps_db_export_for_artemis.
Qed.

Lemma keeps_db_run_dbt_transforms (E : env) : keeps_db (run_dbt_transforms E).
Proof.
  unfold run_dbt_transforms. destruct (dbt_invoke E) as [[e|b]|]; apply keeps_db_ret.
Qed.

Lemma grows_run_daily_update (E : env) (api_key : option string)
    (output_dir export_format : string) :
  grows_by_fetches E (run_daily_update E api_key output_dir export_format).
Proof.
  unfold run_daily_update.
  apply grows_bind; [apply grows_of_keeps, keeps_db_now|]. intros _.
  apply grows_try; [|intros e; apply grows_of_keeps, keeps_db_ret].
  apply grows_bind.
  { apply grows_of_keeps. unfold init_pipeline.
    destruct (nonempty_key api_key || nonempty_key (DUNE_API_KEY E));
      [apply keeps_db_ret | apply keeps_db_raise]. }
  intros _. apply grows_bind; [apply grows_fetch_all|]. intros _.
  apply grows_bind; [apply grows_of_keeps, keeps_db_export_for_artemis|]. intros _.
  apply grows_bind; [apply grows_of_keeps, keeps_db_run_dbt_transforms|]. intros _.
  apply grows_of_keeps, keeps_db_ret.
Qed.

Lemma grows_scheduler_iteration (E : env) (api_key : option string)
    (output_dir export_format : string) (interval_hours next_update : Z) :
  grows_by_fetches E
    (scheduler_iteration E api_key output_dir export_format interval_hours next_update).
Proof.
  unfold scheduler_iteration.
  apply grows_bind; [apply grows_of_keeps, keeps_db_now|]. intros t.
  apply grows_bind.
  { destruct (t >=? next_update)%Z; [|apply grows_of_keeps, keeps_db_ret].
    apply grows_bind; [apply grows_run_daily_update|].
    intros [|]; apply grows_of_keeps, keeps_db_ret. }
  intros nu. apply grows_bind; [apply grows_of_keeps, keeps_db_sleep|].
  intros _. apply grows_of_keeps, keeps_db_ret.
Qed.

Lemma grows_scheduler_loop (E : env) (turns : nat) (api_key : option string)
    (output_dir export_format : string) (interval_hours next_update : Z) :
  grows_by_fetches E
    (scheduler_loop E turns api_key output_dir export_format interval_hours next_update).
Proof.
  revert next_update. induction turns as [|turns IH]; intros next_update;
    cbn [scheduler_loop].
  - apply grows_of_keeps, keeps_db_ret.
  - apply grows_bind; [apply grows_scheduler_iteration|]. intros nu. apply IH.
Qed.

(** A property of tables that survives the addition of a fetched row
    survives everything that grows the table by fetches. *)
Lemma grown_by_fetches_preserves (E : env) (P : list QueryResult -> Prop)
    (a b : list QueryResult) :
  (forall tbl qr, P tbl -> appended_by_fetch E tbl qr -> P (tbl ++ [qr])) ->
  P a -> grown_by_fetches E a b -> P b.
Proof.
  intros Hstep Ha Hab. induction Hab as [|b qr _ IH Hqr]; [exact Ha|].
  apply Hstep; assumption.
Qed.

Lemma id_lt_next_rowid (tbl : list QueryResult) (e : QueryResult) :
  e ∈ tbl -> id e < next_rowid tbl.
Proof.
  unfold next_rowid. induction tbl as [|x tbl IH]; intros Hin; [inversion Hin|].
  cbn [foldr]. apply elem_of_cons in Hin as [->|Hin]; [lia|].
  specialize (IH Hin). lia.
Qed.

Lemma ids_increasing_snoc (tbl : list QueryResult) (qr : QueryResult) :
  ids_increasing tbl -> id qr = next_rowid tbl -> ids_increasing (tbl ++ [qr]).
Proof.
  intros Hinc Hid i j e1 e2 Hi Hj Hij.
  assert (Hjlen : (j < length (tbl ++ [qr]))%nat) by (eapply lookup_lt_Some; exact Hj).
  rewrite length_app in Hjlen. cbn [length] in Hjlen.
  rewrite lookup_app_l in Hi by lia.
  destruct (decide (j < length tbl)%nat) as [Hlt|Hge].
  - rewrite lookup_app_l in Hj by exact Hlt. eapply Hinc; eassumption.
  - rewrite lookup_app_r in Hj by lia.
    replace (j - length tbl)%nat with 0%nat in Hj by lia. cbn in Hj.
    injection Hj as <-. rewrite Hid. apply id_lt_next_rowid.
    eapply list_elem_of_lookup_2. exact Hi.
Qed.

(** X4: keys stay increasing in insertion order (so no two cached rows
    share an [id]) under every command of the pipeline, under a daily run
    and under any number of turns of the daemon loop. *)
Theorem X4_ids_stay_increasing (E : env) (w : world) :
  ids_increasing (db w) ->
  (forall c, ids_increasing (db (snd (run_command E c w)))) /\
  (forall api_key output_dir export_format,
     ids_increasing (db (snd (run_daily_update E api_key output_dir export_format w)))) /\
  (forall turns api_key output_dir export_format interval_hours next_update,
     ids_increasing
       (db (snd (scheduler_loop E turns api_key output_dir export_format
                                interval_hours next_update w)))).
Proof.
  intros Hinc.
  assert (Hstep : forall tbl qr, ids_increasing tbl -> appended_by_fetch E tbl qr ->
                                 ids_increasing (tbl ++ [qr])).
  { intros tbl qr Ht [Hid _]. apply ids_increasing_snoc; assumption. }
  split; [|split]; intros.
  - eapply grown_by_fetches_preserves; [exact Hstep | exact Hinc | apply grows_run_command].
  - eapply grown_by_fetches_preserves; [exact Hstep | exact Hinc | apply grows_run_daily_update].
  - eapply grown_by_fetches_preserves; [exact Hstep | exact Hinc | apply grows_scheduler_loop].
Qed.

Lemma ids_increasing_singleton (e : QueryResult) : ids_increasing [e].
Proof.
  intros i j e1 e2 Hi Hj Hij.
  apply lookup_lt_Some in Hj. cbn [length] in Hj. lia.
Qed.

Lemma X4_ids_stay_increasing_witness :
  let E := Fixtures.test_env Fixtures.one_row true in
  let w := Fixtures.with_db [Fixtures.x1_entry] in
  (forall c, ids_increasing (db (snd (run_command E c w)))) /\
  (forall api_key output_dir export_format,
     ids_increasing (db (snd (run_daily_update E api_key output_dir export_format w)))) /\
  (forall turns api_key output_dir export_format interval_hours next_update,
     ids_increasing
       (db (snd (scheduler_loop E turns api_key output_dir export_format
                                interval_hours next_update w)))).
Proof.
  cbv zeta.
  apply (X4_ids_stay_increasing (Fixtures.test_env Fixtures.one_row true)
           (Fixtures.with_db [Fixtures.x1_entry])).
  apply ids_increasing_singleton.
Defined.

(** X5: if every cached row carries a catalog name with the identifier the
    catalog gives it, this remains so after every command, daily run and
    daemon loop: the pipeline never stores a row under a name, or with an
    identifier, that the catalog does not have. *)
Theorem X5_cache_stays_catalog_coherent (E : env) (w : world) :
  catalog_coherent E (db w) ->
  (forall c, catalog_coherent E (db (snd (run_command E c w)))) /\
  (forall api_key output_dir export_format,
     catalog_coherent E (db (snd (run_daily_update E api_key output_dir export_format w)))) /\
  (forall turns api_key output_dir export_format interval_hours next_update,
     catalog_coherent E
       (db (snd (scheduler_loop E turns api_key output_dir export_format
                                interval_hours next_update w)))).
Proof.
  intros Hco.
  assert (Hstep : forall tbl qr, catalog_coherent E tbl -> appended_by_fetch E tbl qr ->
                                 catalog_coherent E (tbl ++ [qr])).
  { intros tbl qr Ht (_ & wait & n & rows & Hcat & _).
    apply Forall_app. split; [exact Ht|]. constructor; [exact Hcat | constructor]. }
  split; [|split]; intros.
  - eapply grown_by_fetches_preserves; [exact Hstep | exact Hco | apply grows_run_command].
  - eapply grown_by_fetches_preserves; [exact Hstep | exact Hco | apply grows_run_daily_update].
  - eapply grown_by_fetches_preserves; [exact Hstep | exact Hco | apply grows_scheduler_loop].
Qed.

Lemma X5_cache_stays_catalog_coherent_witness :
  let E := Fixtures.test_env Fixtures.one_row true in
  let w := Fixtures.with_db [Fixtures.x1_entry] in
  (forall c, catalog_coherent E (db (snd (run_command E c w)))) /\
  (forall api_key output_dir export_format,
     catalog_coherent E (db (snd (run_daily_update E api_key output_dir export_format w)))) /\
  (forall turns api_key output_dir export_format interval_hours next_update,
     catalog_coherent E
       (db (snd (scheduler_loop E turns api_key output_dir export_format
                                interval_hours next_update w)))).
Proof.
  cbv zeta.
  apply (X5_cache_stays_catalog_coherent (Fixtures.test_env Fixtures.one_row true)
           (Fixtures.with_db [Fixtures.x1_entry])).
  constructor; [reflexivity | constructor].
Defined.

Lemma row_count_matches_appended (E : env) (tbl : list QueryResult) (qr : QueryResult) :
  json_round_trips E -> appended_by_fetch E tbl qr -> row_count_matches E qr.
Proof.
  intros [Hempty Hrt] (_ & wait & n & rows & _ & Hsvc & Hdata & Hcount).
  unfold row_count_matches. rewrite Hdata, Hcount.
  unfold stored_data, stored_count.
  destruct rows as [[|r rs]|]; cbn [truthy_rows].
  - exists []. split; [exact Hempty | reflexivity].
  - exists (r :: rs). split; [eapply Hrt; exact Hsvc | reflexivity].
  - exists []. split; [exact Hempty | reflexivity].
Qed.

(** X6: when [json.loads] undoes [json.dumps] on what the client returns,
    the invariant "the payload decodes and [row_count] is the number of
    rows in it" holds of every cached row after every command, daily run
    and daemon loop, if it held before. *)
Theorem X6_row_count_stays_length_of_data (E : env) (w : world) :
  json_round_trips E ->
  Forall (row_count_matches E) (db w) ->
  (forall c, Forall (row_count_matches E) (db (snd (run_command E c w)))) /\
  (forall api_key output_dir export_format,
     Forall (row_count_matches E)
            (db (snd (run_daily_update E api_key output_dir export_format w)))) /\
  (forall turns api_key output_dir export_format interval_hours next_update,
     Forall (row_count_matches E)
       (db (snd (scheduler_loop E turns api_key output_dir export_format
                                interval_hours next_update w)))).
Proof.
  intros Hrt Hinv.
  assert (Hstep : forall tbl qr, Forall (row_count_matches E) tbl ->
                                 appended_by_fetch E tbl qr ->
                                 Forall (row_count_matches E) (tbl ++ [qr])).
  { intros tbl qr Ht Hqr. apply Forall_app. split; [exact Ht|].
    constructor; [eapply row_count_matches_appended; eassumption | constructor]. }
  split; [|split]; intros.
  - eapply grown_by_fetches_preserves; [exact Hstep | exact Hinv | apply grows_run_command].
  - eapply grown_by_fetches_preserves; [exact Hstep | exact Hinv | apply grows_run_daily_update].
  - eapply grown_by_fetches_preserves; [exact Hstep | exact Hinv | apply grows_scheduler_loop].
Qed.

Lemma fixture_round_trips : json_round_trips (Fixtures.test_env Fixtures.one_row true).
Proof.
  split; [reflexivity|].
  intros wait n qid name r rs H. destruct wait; cbn in H; injection H as <- <-; reflexivity.
Qed.

Lemma X6_row_count_stays_length_of_data_witness :
  let E := Fixtures.test_env Fixtures.one_row true in
  let w := Fixtures.with_db [Fixtures.x1_entry] in
  (forall c, Forall (row_count_matches E) (db (snd (run_command E c w)))) /\
  (forall api_key output_dir export_format,
     Forall (row_count_matches E)
            (db (snd (run_daily_update E api_key output_dir export_format w)))) /\
  (forall turns api_key output_dir export_format interval_hours next_update,
     Forall (row_count_matches E)
       (db (snd (scheduler_loop E turns api_key output_dir export_format
                                interval_hours next_update w)))).
Proof.
  cbv zeta.
  apply (X6_row_count_stays_length_of_data (Fixtures.test_env Fixtures.one_row true)
           (Fixtures.with_db [Fixtures.x1_entry])).
  - exact fixture_round_trips.
  - constructor; [|constructor]. exists [Fixtures.row_x1]. split; reflexivity.
Defined.

(** ** Row counts of an export *)






(** ** Fetching one name and reading another *)

(** X8: whatever its outcome, [fetch_query] for one name leaves the latest
    cached result of every other name as it was, so [get_query], [tail],
    [list_queries] and the export see the same data for the other names. *)
Theorem X8_fetch_leaves_other_names_alone (E : env) (name other : string) (wait : bool)
    (w : world) :
  other <> name ->
  select_latest other (db (snd (fetch_query E name wait w))) = select_latest other (db w).
Proof.
  intros Hne.
  destruct (fetch_query_shape E name wait w) as (r & w' & Hrun & _ & _ & _ & Hr).
  rewrite Hrun. cbn [snd]. destruct r as [qr|].
  - destruct Hr as (-> & _ & _ & Hname & _). rewrite select_latest_snoc.
    destruct (decide (logical_name qr = other)) as [Heq|_]; [congruence | reflexivity].
  - destruct Hr as [-> _]. reflexivity.
Qed.

Lemma X8_fetch_leaves_other_names_alone_witness :
  let E := Fixtures.test_env Fixtures.one_row true in
  let w := Fixtures.with_db [Fixtures.x1_entry] in
  select_latest "num transactions" (db (snd (fetch_query E "x402 volume evm" true w)))
    = select_latest "num transactions" (db w).
Proof.
  cbv zeta.
  apply (X8_fetch_leaves_other_names_alone (Fixtures.test_env Fixtures.one_row true)
           "x402 volume evm" "num transactions" true (Fixtures.with_db [Fixtures.x1_entry])).
  discriminate.
Defined.

(** ** The access layer *)

Lemma get_query_known (E : env) (name : string) (limit offset : Z) (w : world)
    (qid : Z) (e : QueryResult) (d : list row) :
  catalog_get (catalog E) name = Some qid ->
  select_latest name (db w) = Some e ->
  json_loads E (data e) = Some d ->
  get_query E name limit offset w =
    (inr (Some (py_slice d offset (offset + limit))),
     printed w [MsgShowing name (row_count e)
                           (Z.of_nat (length (py_slice d offset (offset + limit))))
                           (timestamp e)]).
Proof.
  intros Hcat Hsel Hj. unfold get_query. rewrite Hcat.
  unfold bind at 1, sql_select_latest at 1. rewrite Hsel, Hj. reflexivity.
Qed.

Lemma tail_known (E : env) (name : string) (n : Z) (w : world)
    (qid : Z) (e : QueryResult) (d : list row) :
  catalog_get (catalog E) name = Some qid ->
  select_latest name (db w) = Some e ->
  json_loads E (data e) = Some d ->
  let res := if (Z.of_nat (length d) >? n)%Z then py_slice_from d (- n) else d in
  tail E name n w =
    (inr (Some res),
     printed w [MsgShowing name (Z.of_nat (length d)) (Z.of_nat (length res)) (timestamp e)]).
Proof.
  intros Hcat Hsel Hj res. unfold tail. rewrite Hcat.
  unfold bind at 1, sql_select_latest at 1. rewrite Hsel, Hj. reflexivity.
Qed.

Lemma py_slice_nonneg {A} (l : list A) (offset limit : Z) :
  0 <= offset -> 0 <= limit ->
  py_slice l offset (offset + limit) = take (Z.to_nat limit) (drop (Z.to_nat offset) l).
Proof.
  intros Ho Hl. unfold py_slice, slice_bound.
  replace (offset <? 0)%Z with false by (symmetry; apply Z.ltb_ge; lia).
  replace (offset + limit <? 0)%Z with false by (symmetry; apply Z.ltb_ge; lia).
  destruct (Z_le_gt_dec (Z.of_nat (length l)) offset) as [Hge|Hlt].
  - rewrite !Z.min_r by lia. rewrite !drop_ge by lia. rewrite !take_nil. reflexivity.
  - rewrite (Z.min_l offset) by lia.
    destruct (Z_le_gt_dec (Z.of_nat (length l)) (offset + limit)) as [Hge'|Hlt'].
    + rewrite Z.min_r by lia. rewrite !take_ge; [reflexivity | |];
        rewrite length_drop; lia.
    + rewrite Z.min_l by lia. f_equal. lia.
Qed.

Lemma py_slice_length_le {A} (l : list A) (offset limit : Z) :
  0 <= limit ->
  (length (py_slice l offset (offset + limit)) <= Z.to_nat limit)%nat.
Proof.
  intros Hl. unfold py_slice, slice_bound. rewrite length_take.
  destruct (Z.ltb_spec offset 0); destruct (Z.ltb_spec (offset + limit) 0); lia.
Qed.

(** X9: for a known name whose latest cached result decodes to [d],
    [get_query] returns the Python slice [d[offset : offset+limit]]; for
    non-negative [offset] and [limit] this is [limit] rows taken after
    skipping [offset] rows, empty when [offset] is past the end and short
    when [d] runs out; for any [offset], also negative, at most [limit]
    rows come back. *)
Theorem X9_get_query_pagination (E : env) (name : string) (limit offset : Z) (w : world)
    (qid : Z) (e : QueryResult) (d : list row) :
  catalog_get (catalog E) name = Some qid ->
  select_latest name (db w) = Some e ->
  json_loads E (data e) = Some d ->
  exists res w',
    get_query E name limit offset w = (inr (Some res), w') /\
    res = py_slice d offset (offset + limit) /\
    (0 <= offset -> 0 <= limit ->
       res = take (Z.to_nat limit) (drop (Z.to_nat offset) d)) /\
    (0 <= limit -> Z.of_nat (length d) <= offset -> res = []) /\
    (0 <= limit -> (length res <= Z.to_nat limit)%nat).
Proof.
  intros Hcat Hsel Hj. eexists _, _.
  split; [apply (get_query_known E name limit offset w qid e d); assumption|].
  split; [reflexivity|]. split; [|split].
  - apply py_slice_nonneg.
  - intros Hl Ho. rewrite py_slice_nonneg by lia.
    rewrite drop_ge by lia. apply take_nil.
  - apply py_slice_length_le.
Qed.

Lemma X9_get_query_pagination_witness :
  let E := Fixtures.test_env Fixtures.one_row true in
  let w := Fixtures.with_db [Fixtures.x1_entry] in
  let d := [Fixtures.row_x1] in
  exists res w',
    get_query E "num transactions" 100 0 w = (inr (Some res), w') /\
    res = py_slice d 0 (0 + 100) /\
    (0 <= 0 -> 0 <= 100 -> res = take (Z.to_nat 100) (drop (Z.to_nat 0) d)) /\
    (0 <= 100 -> Z.of_nat (length d) <= 0 -> res = []) /\
    (0 <= 100 -> (length res <= Z.to_nat 100)%nat).
Proof.
  cbv zeta.
  apply (X9_get_query_pagination (Fixtures.test_env Fixtures.one_row true)
           "num transactions" 100 0 (Fixtures.with_db [Fixtures.x1_entry])
           6084845 Fixtures.x1_entry [Fixtures.row_x1]); reflexivity.
Defined.

(** X10: [get_query] and [tail] return [None], without raising, for an
    unknown name, for a name with no cached result and for a cached payload
    that does not parse; the three cases differ only in the line printed,
    and nothing but the output changes. *)
Theorem X10_accessors_return_None (E : env) (name : string) (limit offset n : Z)
    (w : world) :
  catalog_get (catalog E) name = None \/
  select_latest name (db w) = None \/
  (exists e, select_latest name (db w) = Some e /\ json_loads E (data e) = None) ->
  exists m,
    (m = MsgUnknownQuery name \/ m = MsgNoData name \/ m = MsgParseError name) /\
    get_query E name limit offset w = (inr None, printed w [m]) /\
    tail E name n w = (inr None, printed w [m]).
Proof.
  intros H. unfold get_query, tail.
  destruct (catalog_get (catalog E) name) as [qid|] eqn:Hcat.
  - unfold bind, sql_select_latest, print, ret, printed.
    destruct (select_latest name (db w)) as [e|] eqn:Hsel.
    + destruct (json_loads E (data e)) as [d|] eqn:Hj.
      * exfalso. destruct H as [H|[H|(e' & [= <-] & H)]]; congruence.
      * exists (MsgParseError name). repeat split; auto.
    + exists (MsgNoData name). repeat split; auto.
  - exists (MsgUnknownQuery name). repeat split; auto.
Qed.

Lemma X10_accessors_return_None_witness :
  let E := Fixtures.test_env Fixtures.one_row true in
  let w := Fixtures.with_db [Fixtures.x1_entry] in
  exists m,
    (m = MsgUnknownQuery "x402 volume evm" \/ m = MsgNoData "x402 volume evm" \/
     m = MsgParseError "x402 volume evm") /\
    get_query E "x402 volume evm" 100 0 w = (inr None, printed w [m]) /\
    tail E "x402 volume evm" 10 w = (inr None, printed w [m]).
Proof.
  cbv zeta.
  apply (X10_accessors_return_None (Fixtures.test_env Fixtures.one_row true)
           "x402 volume evm" 100 0 10 (Fixtures.with_db [Fixtures.x1_entry])).
  right. left. reflexivity.
Defined.

(** X11: for a negative [n], [tail] returns the rows of the latest result
    with the first [-n] dropped ([d[-n:]] with a positive bound), not the
    last rows. *)
Theorem X11_tail_negative_count (E : env) (name : string) (n : Z) (w : world)
    (qid : Z) (e : QueryResult) (d : list row) :
  catalog_get (catalog E) name = Some qid ->
  select_latest name (db w) = Some e ->
  json_loads E (data e) = Some d ->
  n < 0 ->
  exists w', tail E name n w = (inr (Some (drop (Z.to_nat (- n)) d)), w').
Proof.
  intros Hcat Hsel Hj Hn. eexists.
  rewrite (tail_known E name n w qid e d Hcat Hsel Hj). cbv zeta.
  replace (Z.of_nat (length d) >? n)%Z with true by (symmetry; apply Z.gtb_lt; lia).
  unfold py_slice_from, slice_bound.
  replace (- n <? 0)%Z with false by (symmetry; apply Z.ltb_ge; lia).
  destruct (Z_le_gt_dec (- n) (Z.of_nat (length d))) as [Hle|Hgt].
  - rewrite Z.min_l by lia. reflexivity.
  - rewrite Z.min_r by lia. rewrite !drop_ge by lia. reflexivity.
Qed.

Lemma X11_tail_negative_count_witness :
  let E := Fixtures.test_env Fixtures.one_row true in
  let w := Fixtures.with_db [Fixtures.x1_entry] in
  exists w',
    tail E "num transactions" (-1) w = (inr (Some (drop (Z.to_nat (- (-1))) [Fixtures.row_x1])), w').
Proof.
  cbv zeta.
  apply (X11_tail_negative_count (Fixtures.test_env Fixtures.one_row true)
           "num transactions" (-1) (Fixtures.with_db [Fixtures.x1_entry])
           6084845 Fixtures.x1_entry [Fixtures.row_x1]); try reflexivity.
Defined.

Lemma list_queries_loop_spec (tbl_w : world) (items : list (string * Z))
    (acc : list query_info) :
  list_queries_loop items acc tbl_w =
    (inr (acc ++ map (info_of (db tbl_w)) items), tbl_w).
Proof.
  revert acc. induction items as [|[name qid] rest IH]; intros acc.
  - cbn [list_queries_loop map]. rewrite app_nil_r. reflexivity.
  - cbn [list_queries_loop]. unfold bind at 1, sql_select_latest at 1.
    rewrite IH. rewrite <- app_assoc. cbn [app map]. unfold info_of, latest_row_count.
    cbn [fst snd]. reflexivity.
Qed.

(** X12: [list_queries] returns one entry per catalog entry, in catalog
    order, carrying the timestamp and row count of the latest cached result
    of the name, or no timestamp and a count of 0 for a name never fetched;
    it changes nothing in the world. *)
Theorem X12_list_queries_reports_every_entry (E : env) (w : world) :
  list_queries E w = (inr (map (info_of (db w)) (catalog E)), w) /\
  map info_logical_name (map (info_of (db w)) (catalog E)) = map fst (catalog E) /\
  (forall item, item ∈ catalog E -> select_latest (fst item) (db w) = None ->
     info_last_fetch (info_of (db w) item) = None /\
     info_row_count (info_of (db w) item) = 0).
Proof.
  split; [|split].
  - unfold list_queries. rewrite list_queries_loop_spec. reflexivity.
  - rewrite map_map. reflexivity.
  - intros item _ Hsel. unfold info_of, latest_row_count. cbn. rewrite Hsel. split; reflexivity.
Qed.

(** ** Fetching, then reading *)

Lemma stored_count_length (rows : option (list row)) :
  stored_count rows = Z.of_nat (length (default [] rows)).
Proof. destruct rows as [[|r rs]|]; reflexivity. Qed.

(** X13: after a [fetch_query] that stores rows [d] whose JSON text decodes
    back to [d], with a timestamp later than that of the previous latest
    result of the name, [get_query] pages through [d], [tail] returns the
    end of [d], and [list_queries] reports the new timestamp and [len(d)]
    for the name. *)
Theorem X13_fetch_then_read_round_trip (E : env) (name : string) (wait : bool) (qid : Z)
    (k : nat) (rows : option (list row)) (limit offset n : Z) (w : world) :
  catalog_get (catalog E) name = Some qid ->
  (k < 3)%nat ->
  (forall j, (j < k)%nat ->
     exists e, fetch_service E wait (calls w + j)%nat qid name = inl e) ->
  fetch_service E wait (calls w + k)%nat qid name = inr (Rows rows) ->
  json_loads E (stored_data E rows) = Some (default [] rows) ->
  (forall y, select_latest name (db w) = Some y ->
     String.ltb (timestamp y) (isoformat E (datetime_now E (ticks w))) = true) ->
  let d := default [] rows in
  exists qr w1 w2 w3,
    fetch_query E name wait w = (inr (Some qr), w1) /\
    get_query E name limit offset w1 = (inr (Some (py_slice d offset (offset + limit))), w2) /\
    tail E name n w1 =
      (inr (Some (if (Z.of_nat (length d) >? n)%Z then py_slice_from d (- n) else d)), w3) /\
    info_of (db w1) (name, qid) =
      mkQueryInfo name qid (Some (timestamp qr)) (Z.of_nat (length d)).
Proof.
  intros Hcat Hk Hfail Hok Hrt Hnew d.
  destruct (fetch_query_rows E name wait qid k rows w Hcat Hk Hfail Hok) as [msgs Hrun].
  match type of Hrun with
  | _ = (inr (Some ?q), ?w1') => set (qr := q) in *; set (w1 := w1') in *
  end.
  assert (Hsel : select_latest name (db w1) = Some qr).
  { unfold w1, qr. cbn [db]. rewrite select_latest_snoc. cbn [logical_name timestamp].
    destruct (decide (name = name)) as [_|Hne]; [|contradiction].
    destruct (select_latest name (db w)) as [y|] eqn:Hy; [|reflexivity].
    rewrite (Hnew y eq_refl). reflexivity. }
  eexists qr, w1, _, _. split; [exact Hrun|]. split; [|split].
  - apply (get_query_known E name limit offset w1 qid qr d Hcat Hsel). exact Hrt.
  - apply (tail_known E name n w1 qid qr d Hcat Hsel). exact Hrt.
  - unfold info_of, latest_row_count. cbn [fst snd]. rewrite Hsel. cbn [fmap option_fmap option_map].
    f_equal. unfold qr. cbn [row_count]. apply stored_count_length.
Qed.

Lemma X13_fetch_then_read_round_trip_witness :
  let E := Fixtures.test_env Fixtures.one_row true in
  let w := Fixtures.with_db [Fixtures.x1_entry] in
  let d := default [] (Some [Fixtures.row_x1]) in
  exists qr w1 w2 w3,
    fetch_query E "num transactions" true w = (inr (Some qr), w1) /\
    get_query E "num transactions" 100 0 w1 = (inr (Some (py_slice d 0 (0 + 100))), w2) /\
    tail E "num transactions" 10 w1 =
      (inr (Some (if (Z.of_nat (length d) >? 10)%Z then py_slice_from d (- 10) else d)), w3) /\
    info_of (db w1) ("num transactions", 6084845) =
      mkQueryInfo "num transactions" 6084845 (Some (timestamp qr)) (Z.of_nat (length d)).
Proof.
  cbv zeta.
  apply (X13_fetch_then_read_round_trip (Fixtures.test_env Fixtures.one_row true)
           "num transactions" true 6084845 0 (Some [Fixtures.row_x1]) 100 0 10
           (Fixtures.with_db [Fixtures.x1_entry])).
  - reflexivity.
  - lia.
  - intros j Hj. lia.
  - reflexivity.
  - reflexivity.
  - intros y Hy. vm_compute in Hy. injection Hy as <-. reflexivity.
Defined.

(** ** [fetch_all] *)

Lemma fetch_all_loop_spec (E : env) (names : list string)
    (results : list (string * option QueryResult)) (w : world) :
  exists new w',
    fetch_all_loop E names results w = (inr (results ++ new), w') /\
    map fst new = names /\
    db w' = db w ++ omap snd new /\
    Forall (fun p => forall qr, snd p = Some qr -> logical_name qr = fst p) new /\
    files w' = files w /\
    ticks w' = (ticks w + length (omap snd new))%nat /\
    (calls w <= calls w' <= calls w + 3 * length names)%nat.
Proof.
  revert results w. induction names as [|name rest IH]; intros results w.
  - exists [], w. cbn [fetch_all_loop omap map length]. unfold ret. rewrite !app_nil_r.
    split; [reflexivity|]. split; [reflexivity|]. split; [reflexivity|].
    split; [constructor|]. split; [reflexivity|]. split; simpl; lia.
  - cbn [fetch_all_loop]. unfold bind at 1.
    destruct (fetch_query_shape E name true w)
      as (r & w1 & Hrun & Hfiles & Hcalls & _ & Hr).
    rewrite Hrun. unfold bind at 1, sleep at 1.
    match goal with
    | |- context [fetch_all_loop _ rest ?acc ?w2] =>
        destruct (IH acc w2) as (new & w' & Hloop & Hnames & Hdb & Hall & Hf & Ht & Hc)
    end.
    cbn [db trace ticks stdout files] in *.
    assert (Hc2 : (calls w1 <= calls w' <= calls w1 + 3 * length rest)%nat).
    { unfold calls in *. cbn [trace] in Hc. rewrite calls_snoc_sleep in Hc. exact Hc. }
    exists ((name, r) :: new), w'. rewrite Hloop, <- app_assoc. cbn [app map fst length].
    split; [reflexivity|]. split; [rewrite Hnames; reflexivity|].
    destruct r as [qr|].
    + change (omap snd ((name, Some qr) :: new)) with (qr :: omap snd new).
      destruct Hr as (Hdb1 & Ht1 & _ & Hname & _).
      split; [rewrite Hdb, Hdb1, <- app_assoc; reflexivity|].
      split; [constructor; [cbn [fst snd]; intros qr' [= <-]; exact Hname | exact Hall]|].
      split; [congruence|]. split; [cbn [length]; lia | lia].
    + change (omap snd ((name, @None QueryResult) :: new)) with (omap snd new).
      destruct Hr as [Hdb1 Ht1].
      split; [rewrite Hdb, Hdb1; reflexivity|].
      split; [constructor; [cbn [snd]; discriminate | exact Hall]|].
      split; [congruence|]. split; lia.
Qed.

Lemma fetch_all_spec (E : env) (w : world) :
  exists results w',
    fetch_all E w = (inr results, w') /\
    map fst results = map fst (catalog E) /\
    db w' = db w ++ omap snd results /\
    Forall (fun p => forall qr, snd p = Some qr -> logical_name qr = fst p) results /\
    files w' = files w /\
    (calls w <= calls w' <= calls w + 3 * length (catalog E))%nat.
Proof.
  unfold fetch_all. unfold bind at 1, print at 1. unfold bind at 1.
  match goal with
  | |- context [fetch_all_loop _ ?names [] ?w1] =>
      destruct (fetch_all_loop_spec E names [] w1)
        as (new & w' & Hloop & Hnames & Hdb & Hall & Hf & _ & Hc)
  end.
  rewrite Hloop. cbn [app]. unfold bind, print, ret.
  eexists new, _. split; [reflexivity|].
  rewrite length_map in Hc. unfold calls in *.
  cbn [db trace ticks stdout files] in *. repeat split; try assumption; lia.
Qed.

(** X14: [fetch_all] never raises; it returns one result per catalog name,
    in catalog order, each stored row under its own name; the table grows by
    exactly the rows returned (none for a failed fetch); no file is
    written; and at most three remote calls are made per catalog entry. *)
Theorem X14_fetch_all_one_result_per_name (E : env) (w : world) :
  exists results w',
    fetch_all E w = (inr results, w') /\
    map fst results = map fst (catalog E) /\
    db w' = db w ++ omap snd results /\
    Forall (fun p => forall qr, snd p = Some qr -> logical_name qr = fst p) results /\
    files w' = files w /\
    (calls w <= calls w' <= calls w + 3 * length (catalog E))%nat.
Proof. exact (fetch_all_spec E w). Qed.


(** ** What an export writes *)

Lemma export_loop_ticks (E : env) (items : list (string * Z)) (all_data : list row)
    (summary : export_summary) (w : world) :
  ticks (snd (export_loop E items all_data summary w)) =
    (ticks w + length (source_rows E (db w) items))%nat.
Proof.
  revert all_data summary w.
  induction items as [|[name qid] rest IH]; intros all_data summary w.
  - cbn. lia.
  - cbn [export_loop]. unfold bind at 1, sql_select_latest at 1.
    destruct (select_latest name (db w)) as [e|] eqn:Hsel.
    + destruct (json_loads E (data e)) as [[|r rows]|] eqn:Hj.
      * unfold bind at 1, print at 1. rewrite IH. cbn [db ticks].
        rewrite source_rows_skipped; [reflexivity|].
        unfold is_skipped. cbn [fst]. rewrite Hsel, Hj. reflexivity.
      * unfold bind at 1.
        destruct (enrich_rows_spec E name qid (timestamp e) (r :: rows) all_data w)
          as (seg1 & Hrun1 & _).
        rewrite Hrun1. unfold bind at 1, print at 1. rewrite IH. cbn [db ticks].
        rewrite source_rows_kept
          by (unfold is_skipped; cbn [fst]; rewrite Hsel, Hj; reflexivity).
        rewrite length_app, length_map. unfold latest_rows. cbn [fst].
        rewrite Hsel, Hj. cbn. lia.
      * unfold bind at 1, print at 1. rewrite IH. cbn [db ticks].
        rewrite source_rows_skipped; [reflexivity|].
        unfold is_skipped. cbn [fst]. rewrite Hsel, Hj. reflexivity.
    + unfold bind at 1, print at 1. rewrite IH. cbn [db ticks].
      rewrite source_rows_skipped; [reflexivity|].
      unfold is_skipped. cbn [fst]. rewrite Hsel. reflexivity.
Qed.

Lemma enrich_rows_stamps (E : env) (name : string) (qid : Z) (ts : string)
    (rows all_data : list row) (w : world) :
  exists seg,
    enrich_rows E name qid ts rows all_data w =
      (inr (all_data ++ seg),
       mkWorld (db w) (trace w) (ticks w + length rows) (stdout w) (files w)) /\
    length seg = length rows /\
    forall j r, seg !! j = Some r ->
      r !! "_exported_at" = Some (VStr (isoformat E (datetime_now E (ticks w + j)))).
Proof.
  revert all_data w. induction rows as [|src rest IH]; intros all_data w.
  - exists []. split; [|split; [reflexivity | intros j r Hj; discriminate Hj]].
    cbn [enrich_rows]. unfold ret.
    rewrite app_nil_r. destruct w. cbn. rewrite Nat.add_0_r. reflexivity.
  - cbn [enrich_rows]. unfold bind, now.
    match goal with
    | |- context [enrich_rows _ _ _ _ rest ?acc ?w1] =>
        destruct (IH acc w1) as (seg & Hrun & Hlen & Hst)
    end.
    rewrite Hrun. cbn [db trace ticks stdout files] in *.
    eexists (_ :: seg). split; [|split].
    + rewrite <- app_assoc. cbn [length].
      replace (ticks w + S (length rest))%nat with (S (ticks w) + length rest)%nat by lia.
      reflexivity.
    + cbn [length]. rewrite Hlen. reflexivity.
    + intros [|j] r Hj.
      * cbn in Hj. injection Hj as <-. rewrite Nat.add_0_r. apply enrich_exported_at.
      * cbn in Hj. rewrite (Hst j r Hj). do 4 f_equal. lia.
Qed.

(** The j-th row the loop adds carries the j-th clock reading made from
    the start of the loop. *)
Lemma export_loop_stamps (E : env) (items : list (string * Z)) (all_data : list row)
    (summary : export_summary) (w : world) :
  exists seg summary' w',
    export_loop E items all_data summary w = (inr (all_data ++ seg, summary'), w') /\
    forall j r, seg !! j = Some r ->
      r !! "_exported_at" = Some (VStr (isoformat E (datetime_now E (ticks w + j)))).
Proof.
  revert all_data summary w.
  induction items as [|[name qid] rest IH]; intros all_data summary w.
  - exists [], summary, w. cbn [export_loop]. unfold ret. rewrite app_nil_r.
    split; [reflexivity | intros j r Hj; discriminate Hj].
  - cbn [export_loop]. unfold bind at 1, sql_select_latest at 1.
    destruct (select_latest name (db w)) as [e|].
    + destruct (json_loads E (data e)) as [[|r0 rows]|].
      * unfold bind at 1, print at 1.
        match goal with
        | |- context [export_loop _ rest all_data summary ?w1] =>
            destruct (IH all_data summary w1) as (seg & s' & w' & Hrun & Hst)
        end.
        exists seg, s', w'. split; [exact Hrun | exact Hst].
      * unfold bind at 1.
        destruct (enrich_rows_stamps E name qid (timestamp e) (r0 :: rows) all_data w)
          as (seg1 & Hrun1 & Hlen1 & Hst1).
        rewrite Hrun1. unfold bind at 1, print at 1.
        match goal with
        | |- context [export_loop _ rest ?acc ?s1 ?w1] =>
            destruct (IH acc s1 w1) as (seg2 & s' & w' & Hrun & Hst2)
        end.
        cbn [db trace ticks stdout files] in *.
        exists (seg1 ++ seg2), s', w'. split; [rewrite Hrun, <- app_assoc; reflexivity|].
        intros j r Hj. destruct (decide (j < length seg1)%nat) as [Hlt|Hge].
        -- rewrite lookup_app_l in Hj by exact Hlt. apply Hst1. exact Hj.
        -- rewrite lookup_app_r in Hj by lia. rewrite (Hst2 _ r Hj).
           do 4 f_equal. lia.
      * unfold bind at 1, print at 1.
        match goal with
        | |- context [export_loop _ rest all_data summary ?w1] =>
            destruct (IH all_data summary w1) as (seg & s' & w' & Hrun & Hst)
        end.
        exists seg, s', w'. split; [exact Hrun | exact Hst].
    + unfold bind at 1, print at 1.
        match goal with
        | |- context [export_loop _ rest all_data summary ?w1] =>
            destruct (IH all_data summary w1) as (seg & s' & w' & Hrun & Hst)
        end.
        exists seg, s', w'. split; [exact Hrun | exact Hst].
Qed.

(** The result of an export, spelled out: the summary, the clock readings
    used and the files written. *)
Lemma export_for_artemis_run (E : env) (output_dir format : string) (w : world) :
  HAS_PANDAS E = true ->
  let sources := source_rows E (db w) (catalog E) in
  let records := map (record_of (db w)) (kept_entries E (db w) (catalog E)) in
  let ts := isoformat E (datetime_now E (ticks w)) in
  let total := sum_Z (map exp_row_count records) in
  let stamp := strftime E (datetime_now E (S (ticks w) + length sources)) in
  exists all_data msgs,
    Forall2 (enriched_from E (db w)) all_data sources /\
    (forall j r, all_data !! j = Some r ->
       r !! "_exported_at" =
         Some (VStr (isoformat E (datetime_now E (S (ticks w) + j))))) /\
    export_for_artemis E output_dir format w =
      match sources with
      | [] =>
          (inr (mkExportSummary ts records total []),
           mkWorld (db w) (trace w) (S (ticks w))
                   (stdout w ++ msgs ++ [WarnNothingToExport]) (files w))
      | _ :: _ =>
          (inr (mkExportSummary ts records total
                  (map fst (export_artifacts output_dir format stamp all_data ts records))),
           mkWorld (db w) (trace w) (S (S (ticks w) + length sources)) (stdout w ++ msgs)
                   (files w ++ export_artifacts output_dir format stamp all_data ts records))
      end.
Proof.
  intros Hpandas sources records ts total stamp.
  unfold export_for_artemis. rewrite Hpandas. cbn [negb].
  unfold bind at 1, now at 1. unfold bind at 1, print at 1. unfold bind at 1.
  match goal with
  | |- context [export_loop _ _ [] ?s0 ?w1] =>
      pose proof (export_loop_ticks E (catalog E) [] s0 w1) as Hticks;
      destruct (export_loop_stamps E (catalog E) [] s0 w1)
        as (seg' & s' & w' & Hrun' & Hstamps);
      destruct (export_loop_spec E (catalog E) [] s0 w1)
        as (seg & msgs & n & Hrun & Hseg & _)
  end.
  rewrite Hrun in Hrun'. injection Hrun' as <- _ _.
  rewrite Hrun in *. clear Hrun.
  cbn [db trace ticks stdout files fst snd app
       summary_timestamp queries_exported total_rows files_created] in *.
  rewrite Z.add_0_l. fold sources in Hseg, Hticks. fold records. fold total. fold ts.
  assert (Hn : n = length sources) by lia. subst n.
  pose proof (Forall2_length _ _ _ Hseg) as Hlen.
  destruct seg as [|r seg]; destruct sources as [|s sources']; try discriminate Hlen.
  - exists [], (MsgExporting output_dir :: msgs).
    split; [constructor|]. split; [intros j r Hj; discriminate Hj|].
    unfold bind, print, ret. cbn [db trace ticks stdout files length].
    rewrite Nat.add_0_r, <- !app_assoc. reflexivity.
  - set (all_data := r :: seg) in *.
    unfold export_artifacts, stamp.
    unfold bind at 1, now at 1. cbn [db trace ticks stdout files].
    replace (S (ticks w + length (s :: sources'))) with (S (ticks w) + length (s :: sources'))%nat
      by lia.
    destruct (format_in format ["parquet"; "both"]);
      destruct (format_in format ["csv"; "both"]);
      unfold bind, print, write_file, ret, add_file;
      cbn [db trace ticks stdout files
           summary_timestamp queries_exported total_rows files_created];
      eexists all_data, _; (split; [exact Hseg|]); (split; [exact Hstamps|]);
      cbn [app map fst]; rewrite <- ?app_assoc; cbn [app]; reflexivity.
Qed.

Lemma kept_entries_all_skipped (E : env) (tbl : list QueryResult) (items : list (string * Z)) :
  (forall item, item ∈ items -> is_skipped E tbl (fst item) = true) ->
  kept_entries E tbl items = [].
Proof.
  induction items as [|item rest IH]; intros Hall; [reflexivity|].
  rewrite kept_entries_skipped by (apply Hall; left).
  apply IH. intros item' Hin. apply Hall. right. exact Hin.
Qed.


(** X15: when every catalog entry is skipped (nothing cached, or nothing
    usable), the export is a no-op and not a failure: it returns a summary
    with no query, [total_rows = 0] and no file, writes nothing, ends its
    output with the "no data to export" warning, and reads the clock once,
    for the summary's timestamp. *)
Theorem X15_export_without_data_is_a_no_op (E : env) (output_dir format : string)
    (w : world) :
  HAS_PANDAS E = true ->
  (forall item, item ∈ catalog E -> is_skipped E (db w) (fst item) = true) ->
  exists msgs,
    export_for_artemis E output_dir format w =
      (inr (mkExportSummary (isoformat E (datetime_now E (ticks w))) [] 0 []),
       mkWorld (db w) (trace w) (S (ticks w))
               (stdout w ++ msgs ++ [WarnNothingToExport]) (files w)).
Proof.
  intros Hpandas Hall.
  destruct (export_for_artemis_run E output_dir format w Hpandas)
    as (all_data & msgs & _ & _ & Hrun).
  unfold source_rows in Hrun.
  rewrite (kept_entries_all_skipped E (db w) (catalog E) Hall) in Hrun.
  exists msgs. exact Hrun.
Qed.

Lemma X15_export_without_data_is_a_no_op_witness :
  let E := Fixtures.test_env Fixtures.one_row true in
  let w := Fixtures.empty_world in
  exists msgs,
    export_for_artemis E "out" "both" w =
      (inr (mkExportSummary (isoformat E (datetime_now E (ticks w))) [] 0 []),
       mkWorld (db w) (trace w) (S (ticks w))
               (stdout w ++ msgs ++ [WarnNothingToExport]) (files w)).
Proof.
  cbv zeta.
  apply (X15_export_without_data_is_a_no_op (Fixtures.test_env Fixtures.one_row true)
           "out" "both" Fixtures.empty_world).
  - reflexivity.
  - intros item _. reflexivity.
Defined.



(** ** The scheduled run and the daemon loop *)

(** X17: a daily run that fails never raises and writes no file.  Without
    an API key it reads the clock once and does nothing else: no remote
    call, no cache write.  With a key but without the export libraries,
    every catalog entry has been fetched before the export raises, and the
    rows fetched stay in the cache although the run reports failure. *)
Theorem X17_failed_run_keeps_what_it_fetched (E : env) (api_key : option string)
    (output_dir export_format : string) (w : world) :
  (nonempty_key api_key || nonempty_key (DUNE_API_KEY E)) && HAS_PANDAS E = false ->
  exists w',
    run_daily_update E api_key output_dir export_format w = (inr false, w') /\
    files w' = files w /\
    (nonempty_key api_key || nonempty_key (DUNE_API_KEY E) = false ->
       w' = mkWorld (db w) (trace w) (S (ticks w)) (stdout w) (files w)) /\
    (nonempty_key api_key || nonempty_key (DUNE_API_KEY E) = true ->
       exists results,
         fetch_all E (snd (now E w)) = (inr results, w') /\
         db w' = db w ++ omap snd results).
Proof.
  intros Hfail. unfold run_daily_update. unfold bind at 1, now at 1. unfold try_except.
  unfold bind at 1, init_pipeline.
  destruct (nonempty_key api_key || nonempty_key (DUNE_API_KEY E)) eqn:Hkey.
  - cbn [andb] in Hfail. unfold ret at 1. unfold bind at 1.
    match goal with
    | |- context [fetch_all _ ?w1] =>
        destruct (fetch_all_spec E w1)
          as (results & w2 & Hrun & _ & Hdb & _ & Hfiles & _)
    end.
    rewrite Hrun. unfold bind at 1. unfold export_for_artemis. rewrite Hfail.
    cbn [negb]. unfold raise, ret. exists w2.
    cbn [db files] in *. split; [reflexivity|]. split; [exact Hfiles|].
    split; [discriminate|]. intros _. exists results. split; [exact Hrun | exact Hdb].
  - unfold raise, ret. eexists. split; [reflexivity|]. cbn [files].
    split; [reflexivity|]. split; [reflexivity | discriminate].
Qed.

Lemma X17_failed_run_keeps_what_it_fetched_witness :
  let E := Fixtures.test_env Fixtures.one_row false in
  let w := Fixtures.empty_world in
  exists w',
    run_daily_update E None "out" "both" w = (inr false, w') /\
    files w' = files w /\
    (nonempty_key None || nonempty_key (DUNE_API_KEY E) = false ->
       w' = mkWorld (db w) (trace w) (S (ticks w)) (stdout w) (files w)) /\
    (nonempty_key None || nonempty_key (DUNE_API_KEY E) = true ->
       exists results,
         fetch_all E (snd (now E w)) = (inr results, w') /\
         db w' = db w ++ omap snd results).
Proof.
  cbv zeta.
  apply (X17_failed_run_keeps_what_it_fetched (Fixtures.test_env Fixtures.one_row false)
           None "out" "both" Fixtures.empty_world).
  reflexivity.
Defined.

Lemma scheduler_iteration_idle (E : env) (api_key : option string)
    (output_dir export_format : string) (interval_hours next_update : Z) (w : world) :
  datetime_now E (ticks w) < next_update ->
  scheduler_iteration E api_key output_dir export_format interval_hours next_update w =
    (inr next_update,
     mkWorld (db w) (trace w ++ [EvSleep 60%Q]) (S (ticks w)) (stdout w) (files w)).
Proof.
  intros Hearly. unfold scheduler_iteration. unfold bind at 1, now at 1.
  replace (datetime_now E (ticks w) >=? next_update)%Z with false
    by (symmetry; rewrite Z.geb_leb; apply Z.leb_gt; lia).
  reflexivity.
Qed.

(** X18: as long as the clock reads earlier than the next update time, the
    daemon loop does nothing but read the clock and sleep 60 seconds per
    turn: no run, no remote call, no cache write, no output, and the next
    update time stays as it is. *)
Theorem X18_daemon_idles_until_due (E : env) (turns : nat) (api_key : option string)
    (output_dir export_format : string) (interval_hours next_update : Z) (w : world) :
  (forall j, (j < turns)%nat -> datetime_now E (ticks w + j)%nat < next_update) ->
  scheduler_loop E turns api_key output_dir export_format interval_hours next_update w =
    (inr next_update,
     mkWorld (db w) (trace w ++ replicate turns (EvSleep 60%Q)) (ticks w + turns)
             (stdout w) (files w)).
Proof.
  revert w. induction turns as [|turns IH]; intros w Hearly.
  - cbn [scheduler_loop replicate]. unfold ret. destruct w. cbn.
    rewrite app_nil_r, Nat.add_0_r. reflexivity.
  - cbn [scheduler_loop]. unfold bind at 1.
    rewrite scheduler_iteration_idle
      by (specialize (Hearly 0%nat ltac:(lia)); rewrite Nat.add_0_r in Hearly; exact Hearly).
    rewrite IH.
    + cbn [db trace ticks stdout files replicate]. rewrite <- app_assoc. cbn [app].
      replace (S (ticks w) + turns)%nat with (ticks w + S turns)%nat by lia.
      reflexivity.
    + intros j Hj. cbn [ticks]. replace (S (ticks w) + j)%nat with (ticks w + S j)%nat by lia.
      apply Hearly. lia.
Qed.

Lemma X18_daemon_idles_until_due_witness :
  let E := Fixtures.test_env Fixtures.one_row true in
  let w := Fixtures.empty_world in
  scheduler_loop E 2 None "out" "both" 24 5000000 w =
    (inr 5000000,
     mkWorld (db w) (trace w ++ replicate 2 (EvSleep 60%Q)) (ticks w + 2)
             (stdout w) (files w)).
Proof.
  cbv zeta.
  apply (X18_daemon_idles_until_due (Fixtures.test_env Fixtures.one_row true) 2 None
           "out" "both" 24 5000000 Fixtures.empty_world).
  intros j Hj. destruct j as [|[|j]]; [reflexivity | reflexivity | lia].
Defined.





(** ** More on exports, runs and stale timestamps *)







Lemma get_query_reads_latest (E : env) (name : string) (limit offset : Z) (w1 w2 : world) :
  select_latest name (db w1) = select_latest name (db w2) ->
  fst (get_query E name limit offset w1) = fst (get_query E name limit offset w2).
Proof.
  intros Hsame. unfold get_query.
  destruct (catalog_get (catalog E) name); [|reflexivity].
  unfold bind, sql_select_latest. rewrite Hsame.
  destruct (select_latest name (db w2)) as [e|]; [|reflexivity].
  destruct (json_loads E (data e)); reflexivity.
Qed.

Lemma tail_reads_latest (E : env) (name : string) (n : Z) (w1 w2 : world) :
  select_latest name (db w1) = select_latest name (db w2) ->
  fst (tail E name n w1) = fst (tail E name n w2).
Proof.
  intros Hsame. unfold tail.
  destruct (catalog_get (catalog E) name); [|reflexivity].
  unfold bind, sql_select_latest. rewrite Hsame.
  destruct (select_latest name (db w2)) as [e|]; [|reflexivity].
  destruct (json_loads E (data e)); reflexivity.
Qed.

(** X23: a fetched result whose timestamp is not later than that of the
    current latest result of its name (a clock set back, or two fetches
    reading the same instant) is stored but never served: the lookup keeps
    returning the earlier row, and [get_query] and [tail] return what they
    returned before the fetch. *)
Theorem X23_stale_timestamp_is_stored_not_served (E : env) (name : string) (wait : bool)
    (qid : Z) (k : nat) (rows : option (list row)) (y : QueryResult)
    (limit offset n : Z) (w : world) :
  catalog_get (catalog E) name = Some qid ->
  (k < 3)%nat ->
  (forall j, (j < k)%nat ->
     exists e, fetch_service E wait (calls w + j)%nat qid name = inl e) ->
  fetch_service E wait (calls w + k)%nat qid name = inr (Rows rows) ->
  select_latest name (db w) = Some y ->
  String.ltb (timestamp y) (isoformat E (datetime_now E (ticks w))) = false ->
  exists qr w1,
    fetch_query E name wait w = (inr (Some qr), w1) /\
    db w1 = db w ++ [qr] /\
    select_latest name (db w1) = Some y /\
    fst (get_query E name limit offset w1) = fst (get_query E name limit offset w) /\
    fst (tail E name n w1) = fst (tail E name n w).
Proof.
  intros Hcat Hk Hfail Hok Hsel Hstale.
  destruct (fetch_query_rows E name wait qid k rows w Hcat Hk Hfail Hok) as [msgs Hrun].
  eexists _, _. split; [exact Hrun|]. cbn [db]. split; [reflexivity|].
  assert (Hsame : select_latest name
                    (db w ++ [mkQueryResult (next_rowid (db w)) name qid (stored_data E rows)
                                (isoformat E (datetime_now E (ticks w)))
                                (stored_count rows)]) = select_latest name (db w)).
  { rewrite select_latest_snoc. cbn [logical_name timestamp].
    destruct (decide (name = name)) as [_|Hne]; [|contradiction].
    rewrite Hsel, Hstale. reflexivity. }
  split; [rewrite Hsame; exact Hsel|]. split.
  - apply get_query_reads_latest. exact Hsame.
  - apply tail_reads_latest. exact Hsame.
Qed.

Lemma X23_stale_timestamp_is_stored_not_served_witness :
  let E := Fixtures.test_env Fixtures.one_row true in
  let w := Fixtures.with_db [Fixtures.tie_second] in
  exists qr w1,
    fetch_query E "num transactions" true w = (inr (Some qr), w1) /\
    db w1 = db w ++ [qr] /\
    select_latest "num transactions" (db w1) = Some Fixtures.tie_second /\
    fst (get_query E "num transactions" 100 0 w1) = fst (get_query E "num transactions" 100 0 w) /\
    fst (tail E "num transactions" 10 w1) = fst (tail E "num transactions" 10 w).
Proof.
  cbv zeta.
  apply (X23_stale_timestamp_is_stored_not_served (Fixtures.test_env Fixtures.one_row true)
           "num transactions" true 6084845 0 (Some [Fixtures.row_x1]) Fixtures.tie_second
           100 0 10 (Fixtures.with_db [Fixtures.tie_second])).
  - reflexivity.
  - lia.
  - intros j Hj. lia.
  - reflexivity.
  - reflexivity.
  - reflexivity.
Defined.
